(** * Physio engine: ingest front-end, stream transport and stateful worker

    A shallow embedding of the streaming pipeline
    ([api/validators.py], [api/main.py], [worker/windows.py],
    [worker/processor.py]) together with the properties of its
    specification.

    Conventions of the embedding.
    - A [datetime] is the integer number of microseconds since the epoch
      (the resolution of Python's [datetime]); a duration of [n] seconds is
      [n * 1000000].
    - Python [int] is [Z]; a Python [float] is the rational it denotes.
    - A [dict] with string keys and a Redis keyspace are [gmap string _].
    - Code that can raise runs in the exception-and-state monad [M]: a raise
      keeps the mutations done so far, as in Python.
    - Library functions whose text is not part of the repository
      ([hashlib.sha256], [datetime.isoformat], [datetime.fromisoformat],
      [datetime.timestamp], [int], [float], [np.mean], [round], the trained
      scorer) are section variables; what a property needs of them is a
      hypothesis of that property. *)

From Stdlib Require Import ZArith QArith Qabs Lia Lqa.
From stdpp Require Import base option list sorting gmap strings pretty.

Local Open Scope Z_scope.

(** Microseconds in [n] seconds. *)
Definition seconds (n : Z) : Z := n * 1000000.

(** ** Exceptions and the state monad of effectful code *)

Inductive exn : Type :=
| KeyError (key : string)
| ValueError (msg : string)
| DbError (msg : string)          (* psycopg.Error *)
| RedisError (msg : string)       (* redis.RedisError *)
| ResponseError (msg : string)    (* redis.exceptions.ResponseError *)
| HTTPException (status_code : Z) (detail : string).

Inductive result (A : Type) : Type :=
| Ret (a : A)
| Raise (e : exn).
Arguments Ret {A} a.
Arguments Raise {A} e.

(** Whether a call returned rather than raised. *)
Definition returns {A} (r : result A) : bool :=
  match r with
  | Ret _ => true
  | Raise _ => false
  end.

Definition M (S A : Type) : Type := S -> result A * S.

#[global] Instance M_ret {S} : MRet (M S) := fun A a s => (Ret a, s).
#[global] Instance M_bind {S} : MBind (M S) := fun A B f m s =>
  match m s with
  | (Ret a, s') => f a s'
  | (Raise e, s') => (Raise e, s')
  end.

Definition raise {S A} (e : exn) : M S A := fun s => (Raise e, s).
Definition get {S} : M S S := fun s => (Ret s, s).
Definition modify {S} (f : S -> S) : M S unit := fun s => (Ret tt, f s).
(** [try: m except: h] for a handler that sees the exception. *)
Definition try_except {S A} (m : M S A) (h : exn -> M S A) : M S A := fun s =>
  match m s with
  | (Ret a, s') => (Ret a, s')
  | (Raise e, s') => h e s'
  end.

(** Exact comparison of rationals, as booleans. *)
Definition Qleb (x y : Q) : bool := Qle_bool x y.
Definition Qgtb (x y : Q) : bool := negb (Qle_bool x y).

(** * api/validators.py *)

Module Validators.

(** The candidate reading, after JSON decoding to the declared field types. *)
Record VitalsReading : Type := {
  patient_id : string;
  timestamp : Z;
  hr : Z;
  bp_sys : Z;
  bp_dia : Z;
  spo2 : Z;
  rr : Z;
  temp : Q
}.

(** [Field(..., min_length=a, max_length=b)] *)
Definition str_length_ok (a b : nat) (s : string) : bool :=
  (a <=? String.length s)%nat && (String.length s <=? b)%nat.

(** [Field(..., ge=a, le=b)] on an [int] *)
Definition int_range_ok (a b v : Z) : bool := (a <=? v) && (v <=? b).

(** [Field(..., ge=a, le=b)] on a [float] *)
Definition float_range_ok (a b v : Q) : bool := Qleb a v && Qleb v b.

(** [timestamp_not_future]: [None] is the [ValueError]; [current] is the
    clock read by the validator (the naive and the aware branch both read
    the same instant). *)
Definition timestamp_not_future (current v : Z) : option Z :=
  if v >? current then
    if (v - current) >? seconds 300 then None else Some v
  else Some v.

(** [sys_greater_than_dia] returns its argument unchanged. *)
Definition sys_greater_than_dia (v : Z) : Z := v.

Definition err_if (ok : bool) (loc : string) : list string :=
  if ok then [] else [loc].

(** The error locations pydantic collects, in field order. *)
Definition errors (current : Z) (c : VitalsReading) : list string :=
  err_if (str_length_ok 1 50 (patient_id c)) "patient_id"
  ++ err_if (bool_decide (is_Some (timestamp_not_future current (timestamp c)))) "timestamp"
  ++ err_if (int_range_ok 30 250 (hr c)) "hr"
  ++ err_if (int_range_ok 50 250 (sys_greater_than_dia (bp_sys c))) "bp_sys"
  ++ err_if (int_range_ok 30 150 (bp_dia c)) "bp_dia"
  ++ err_if (int_range_ok 50 100 (spo2 c)) "spo2"
  ++ err_if (int_range_ok 4 60 (rr c)) "rr"
  ++ err_if (float_range_ok 30 45 (temp c)) "temp".

(** Model validation: the validated reading, or the [ValidationError] with
    the offending locations. *)
Definition validate (current : Z) (c : VitalsReading) : VitalsReading + list string :=
  match errors current c with
  | [] => inl c
  | errs => inr errs
  end.

(** The acceptance condition of the specification. *)
Definition in_spec (current : Z) (c : VitalsReading) : Prop :=
  (1 <= String.length (patient_id c) <= 50)%nat
  /\ 30 <= hr c <= 250
  /\ 50 <= bp_sys c <= 250
  /\ 30 <= bp_dia c <= 150
  /\ 50 <= spo2 c <= 100
  /\ 4 <= rr c <= 60
  /\ (30 <= temp c /\ temp c <= 45)%Q
  /\ timestamp c - current <= seconds 300.

(** The field at location [loc] breaks its constraint. *)
Definition offending (current : Z) (c : VitalsReading) (loc : string) : Prop :=
  (loc = "patient_id" /\ ~ (1 <= String.length (patient_id c) <= 50)%nat)
  \/ (loc = "timestamp" /\ ~ timestamp c - current <= seconds 300)
  \/ (loc = "hr" /\ ~ 30 <= hr c <= 250)
  \/ (loc = "bp_sys" /\ ~ 50 <= bp_sys c <= 250)
  \/ (loc = "bp_dia" /\ ~ 30 <= bp_dia c <= 150)
  \/ (loc = "spo2" /\ ~ 50 <= spo2 c <= 100)
  \/ (loc = "rr" /\ ~ 4 <= rr c <= 60)
  \/ (loc = "temp" /\ ~ (30 <= temp c /\ temp c <= 45)%Q).

Definition example_reading (ts : Z) : VitalsReading :=
  {| patient_id := "pt-1234"; timestamp := ts; hr := 72; bp_sys := 120;
     bp_dia := 80; spo2 := 98; rr := 16; temp := 368 # 10 |}.

Definition with_hr (v : Z) (c : VitalsReading) : VitalsReading :=
  {| patient_id := patient_id c; timestamp := timestamp c; hr := v;
     bp_sys := bp_sys c; bp_dia := bp_dia c; spo2 := spo2 c; rr := rr c;
     temp := temp c |}.

End Validators.

(** * worker/windows.py *)

Module Windows.

(** The reading dictionary built by the worker. *)
Record reading : Type := {
  timestamp : Z;
  hr : Z;
  bp_sys : Z;
  bp_dia : Z;
  spo2 : Z;
  rr : Z;
  temp : Q
}.

Record SlidingWindow : Type := {
  size_seconds : Z;
  events : list (Z * reading)      (* the deque, head first *)
}.

(** [SlidingWindow(size_seconds)] *)
Definition new_window (size : Z) : SlidingWindow :=
  {| size_seconds := size; events := [] |}.

Record Aggregates : Type := {
  window_size_s : Z;
  count : Z;
  end_time : Z;
  avg_hr : Q;
  avg_spo2 : Q;
  avg_temp : Q
}.

Record PatientStateManager : Type := {
  patient_id : string;
  w_30s : SlidingWindow;
  w_2m : SlidingWindow;
  w_10m : SlidingWindow
}.

(** [PatientStateManager(patient_id)] *)
Definition new_manager (pid : string) : PatientStateManager :=
  {| patient_id := pid;
     w_30s := new_window 30; w_2m := new_window 120; w_10m := new_window 600 |}.

Section WithLibraries.

(** [datetime.timestamp()]: the float it returns, as the rational it
    denotes; [None] when it raises (a naive datetime that the platform's
    local-time conversion rejects, such as one in year 1). *)
Variable posix : Z -> option Q.

(** The float operations [x - y], [np.mean] and [round(float(.), 2)],
    floats as the rationals they denote. *)
Variable float_sub : Q -> Q -> Q.
Variable np_mean : list Q -> Q.
Variable round2 : Q -> Q.

(** The [while] loop of [_prune]: pop the head while its [timestamp()] is
    below the cutoff; the call can raise on each head. *)
Fixpoint popleft_while (cutoff : Q) (evs : list (Z * reading))
    : result unit * list (Z * reading) :=
  match evs with
  | [] => (Ret tt, [])
  | e :: rest =>
      match posix (fst e) with
      | None => (Raise (ValueError "timestamp out of range"), evs)
      | Some t => if Qgtb cutoff t then popleft_while cutoff rest else (Ret tt, evs)
      end
  end.

Definition _prune (current_time : Z) : M SlidingWindow unit := fun w =>
  match posix current_time with
  | None => (Raise (ValueError "timestamp out of range"), w)
  | Some t =>
      let cutoff := float_sub t (inject_Z (size_seconds w)) in
      let '(res, evs) := popleft_while cutoff (events w) in
      (res, {| size_seconds := size_seconds w; events := evs |})
  end.

(** The append happens before the pruning: an exception of [_prune] leaves
    the new entry in the deque. *)
Definition add_event (ts : Z) (data : reading) : M SlidingWindow unit := fun w =>
  _prune ts {| size_seconds := size_seconds w; events := events w ++ [(ts, data)] |}.

Definition get_aggregates (w : SlidingWindow) : option Aggregates :=
  match last (events w) with
  | None => None                                 (* [if not self.events] *)
  | Some e =>
      let hrs := map (fun e => inject_Z (hr (snd e))) (events w) in
      let spo2s := map (fun e => inject_Z (spo2 (snd e))) (events w) in
      let temps := map (fun e => temp (snd e)) (events w) in
      Some {| window_size_s := size_seconds w;
              count := Z.of_nat (length (events w));
              end_time := fst e;
              avg_hr := round2 (np_mean hrs);
              avg_spo2 := round2 (np_mean spo2s);
              avg_temp := round2 (np_mean temps) |}
  end.

(** The three [add_event] calls in turn; an exception of one leaves the
    windows after it as they were. *)
Definition add_reading (r : reading) : M PatientStateManager unit := fun m =>
  let ts := timestamp r in
  let '(res1, w1) := add_event ts r (w_30s m) in
  match res1 with
  | Raise e =>
      (Raise e, {| patient_id := patient_id m; w_30s := w1;
                   w_2m := w_2m m; w_10m := w_10m m |})
  | Ret _ =>
      let '(res2, w2) := add_event ts r (w_2m m) in
      match res2 with
      | Raise e =>
          (Raise e, {| patient_id := patient_id m; w_30s := w1;
                       w_2m := w2; w_10m := w_10m m |})
      | Ret _ =>
          let '(res3, w3) := add_event ts r (w_10m m) in
          (res3, {| patient_id := patient_id m; w_30s := w1;
                    w_2m := w2; w_10m := w3 |})
      end
  end.

Definition get_summaries (m : PatientStateManager) : list (option Aggregates) :=
  [get_aggregates (w_30s m); get_aggregates (w_2m m); get_aggregates (w_10m m)].

(** The state of one patient after [add_reading] was called for the
    readings [rs], oldest call first; the caller catches what a call
    raises and goes on with the state the call left. *)
Definition feed (pid : string) (rs : list reading) : PatientStateManager :=
  foldl (fun m r => (add_reading r m).2) (new_manager pid) rs.

(** One window of size [size] after the readings [rs]. *)
Definition feed_window (size : Z) (rs : list reading) : SlidingWindow :=
  foldl (fun w r => (add_event (timestamp r) r w).2) (new_window size) rs.

(** The float clock is accurate at the datetime [ts]: [timestamp()]
    answers, it is off by less than half a microsecond, and so is the
    cutoff computed from it for each of the three window sizes.  A double
    has that precision for a timezone-aware datetime between the years
    1834 and 2241. *)
Definition accurate_cutoff (size ts : Z) : Prop :=
  match posix ts with
  | Some q =>
      (Qabs (float_sub q (inject_Z size)
             - (inject_Z ts * (1 # 1000000) - inject_Z size)) < 1 # 2000000)%Q
  | None => False
  end.

Definition accurate_timestamp (ts : Z) : Prop :=
  match posix ts with
  | Some q => (Qabs (q - inject_Z ts * (1 # 1000000)) < 1 # 2000000)%Q
  | None => False
  end.

Definition accurate (ts : Z) : Prop :=
  accurate_timestamp ts
  /\ accurate_cutoff 30 ts /\ accurate_cutoff 120 ts /\ accurate_cutoff 600 ts.

End WithLibraries.

(** Every retained entry is at most the window size older than [t]. *)
Definition within (t : Z) (w : SlidingWindow) : Prop :=
  Forall (fun e => t - fst e <= seconds (size_seconds w)) (events w).

Definition all_within (t : Z) (m : PatientStateManager) : Prop :=
  within t (w_30s m) /\ within t (w_2m m) /\ within t (w_10m m).

(** The readings arrive with non-decreasing timestamps. *)
Definition in_order (rs : list reading) : Prop :=
  StronglySorted (fun a b => timestamp a <= timestamp b) rs.

Definition events_in_order (evs : list (Z * reading)) : Prop :=
  StronglySorted (fun a b => fst a <= fst b) evs.

(** The readings as they are appended, each under its own timestamp. *)
Definition arrivals (rs : list reading) : list (Z * reading) :=
  map (fun r => (timestamp r, r)) rs.

(** A reading that only carries a timestamp (in seconds), for examples. *)
Definition at_second (s : Z) : reading :=
  {| timestamp := seconds s; hr := 72; bp_sys := 120; bp_dia := 80;
     spo2 := 98; rr := 16; temp := 368 # 10 |}.

(** A clock and a subtraction without rounding, for the examples: the
    datetimes used there are whole seconds, which the float represents
    exactly, and so are their differences. *)
Definition exact_posix (ts : Z) : option Q := Some (inject_Z ts * (1 # 1000000))%Q.
Definition exact_sub (x y : Q) : Q := Qred (x - y).

End Windows.

(** * worker/processor.py *)

Module Processor.
Import Windows.

Definition STREAM_KEY : string := "vitals_stream".
Definition GROUP_NAME : string := "physio_workers".

(** The loaded scorer: one sample in, one value out. *)
Record Model : Type := {
  decision_function : list Q -> Q;
  predict : list Q -> Z
}.

(** A row of the [anomalies] table; [details] is the reading snapshot. *)
Record AnomalyRow : Type := {
  a_patient_id : string;
  a_anomaly_type : string;
  a_score : Q;
  a_timestamp : Z;
  a_details : reading
}.

Inductive LogLine : Type :=
| THRESHOLD_CROSSED (pid metric : string) (value : Z) (ts : Z)
| ANOMALY_DETECTED (pid type : string) (score : Q) (ts : Z)
| CRITICAL_model_not_found
| Error_in_loop (e : exn).

(** A stream entry's data: field name to string. *)
Abbreviation event_data := (gmap string string).

(** One consumer group: how many entries of the stream have been delivered
    to the group (the last-delivered id) and the pending entries list, each
    pending id with the consumer that owns it. *)
Record Group : Type := {
  last_delivered : nat;
  pel : list (nat * string)
}.

(** The stream under [STREAM_KEY]: the id of an entry is its position. *)
Record Stream : Type := {
  entries : list event_data;
  groups : gmap string Group
}.

Record World : Type := {
  patient_states : gmap string PatientStateManager;   (* module-level dict *)
  anomalies : list AnomalyRow;                        (* durable table *)
  stdout : list LogLine;
  redis : Stream;
  dispatched : list nat      (* history: ids handed to [process_event] *)
}.

Definition set_patient_states (f : gmap string PatientStateManager -> gmap string PatientStateManager)
    (w : World) : World :=
  {| patient_states := f (patient_states w); anomalies := anomalies w;
     stdout := stdout w; redis := redis w; dispatched := dispatched w |}.
Definition set_anomalies (f : list AnomalyRow -> list AnomalyRow) (w : World) : World :=
  {| patient_states := patient_states w; anomalies := f (anomalies w);
     stdout := stdout w; redis := redis w; dispatched := dispatched w |}.
Definition set_redis (f : Stream -> Stream) (w : World) : World :=
  {| patient_states := patient_states w; anomalies := anomalies w;
     stdout := stdout w; redis := f (redis w); dispatched := dispatched w |}.
Definition print (l : LogLine) : M World unit := modify (fun w =>
  {| patient_states := patient_states w; anomalies := anomalies w;
     stdout := stdout w ++ [l]; redis := redis w; dispatched := dispatched w |}).
Definition note_dispatch (msg_id : nat) : M World unit := modify (fun w =>
  {| patient_states := patient_states w; anomalies := anomalies w;
     stdout := stdout w; redis := redis w; dispatched := dispatched w ++ [msg_id] |}).

Definition when (b : bool) (m : M World unit) : M World unit :=
  if b then m else mret tt.

(** The float literal [0.2]: the double nearest to one fifth. *)
Definition float_0_2 : Q := 3602879701896397 # 18014398509481984.

(** The priority list of the specification, in its own words: [n] is the
    number of entries of the 10-minute window, [hr_dev] and [spo2_dev] the
    absolute deviations of the reading from the window averages; the
    threshold of the score is the float literal. *)
Definition kind_by_priority (n : nat) (hr_dev spo2_dev score : Q) : string :=
  if (6 <=? n)%nat then
    if Qgtb hr_dev 20 then "spike"
    else if Qgtb spo2_dev 5 then "drop"
    else if Qgtb score float_0_2 then "multi-signal"
    else "drift"
  else "spike".

Definition closed_kinds : list string := ["spike"; "drop"; "drift"; "multi-signal"].

Definition same_key (pid : string) (ts : Z) (kind : string) (row : AnomalyRow) : bool :=
  bool_decide (a_patient_id row = pid /\ a_timestamp row = ts /\ a_anomaly_type row = kind).

Section WithLibraries.

(** [datetime.fromisoformat], [int] and [float] on strings; [None] is the
    exception they raise. *)
Variable fromisoformat : string -> option Z.
Variable py_int : string -> option Z.
Variable py_float : string -> option Q.

(** [datetime.timestamp()], float subtraction, [np.mean] and
    [round(float(.), 2)], as in [Windows]. *)
Variable posix : Z -> option Q.
Variable float_sub : Q -> Q -> Q.
Variable np_mean : list Q -> Q.
Variable round2 : Q -> Q.

(** Whether the store declares a unique index on
    [anomalies (patient_id, timestamp, anomaly_type)]; the schema file is
    not part of the sources. *)
Variable anomalies_unique : bool.

Definition getitem (d : event_data) (k : string) : M World string :=
  match d !! k with
  | Some v => mret v
  | None => raise (KeyError k)
  end.

Definition int_of (s : string) : M World Z :=
  match py_int s with
  | Some v => mret v
  | None => raise (ValueError "invalid literal for int()")
  end.

Definition float_of (s : string) : M World Q :=
  match py_float s with
  | Some v => mret v
  | None => raise (ValueError "could not convert string to float")
  end.

(** [try: ts = datetime.fromisoformat(event_data['timestamp'])
     except: ts = datetime.now()] *)
Definition parse_timestamp (now : Z) (d : event_data) : Z :=
  match d !! "timestamp" ≫= fromisoformat with
  | Some ts => ts
  | None => now
  end.

(** The plain [INSERT INTO anomalies]; with a unique index a second row of
    the same key is a [psycopg.Error]. *)
Definition insert_anomaly (row : AnomalyRow) : M World unit := fun w =>
  if anomalies_unique
     && existsb (same_key (a_patient_id row) (a_timestamp row) (a_anomaly_type row))
                (anomalies w)
  then (Raise (DbError "unique violation"), w)
  else (Ret tt, set_anomalies (fun t => t ++ [row]) w).

(** Lines 40-41: get or create the patient's state. *)
Definition ensure_state (pid : string) (ps : gmap string PatientStateManager)
    : gmap string PatientStateManager :=
  match ps !! pid with
  | None => <[pid := new_manager pid]> ps
  | Some _ => ps
  end.

(** [state.add_reading(reading)] on the object the dictionary holds for
    [pid]: what the call changed stays changed when it raises. *)
Definition add_reading_to (pid : string) (r : reading) : M World unit := fun w =>
  match patient_states w !! pid with
  | Some st =>
      let '(res, st') := add_reading posix float_sub r st in
      (res, set_patient_states <[pid := st']> w)
  | None => (Raise (KeyError pid), w)
  end.

(** Lines 104-117 of [process_event]: the anomaly type from the reading,
    the 10-minute aggregates and the inverted score. *)
Definition a_type_of (r : reading) (w_10m : option Aggregates) (anomaly_score : Q) : string :=
  let a_type := "unknown" in
  match w_10m with
  | Some agg =>
      if count agg >? 5 then
        if Qgtb (Qabs (float_sub (inject_Z (hr r)) (avg_hr agg))) 20 then "spike"
        else if Qgtb (Qabs (float_sub (inject_Z (spo2 r)) (avg_spo2 agg))) 5 then "drop"
        else if Qgtb anomaly_score float_0_2 then "multi-signal"
        else "drift"
      else "spike"
  | None => "spike"
  end.

(** The feature vector of lines 68-75. *)
Definition vector_of (r : reading) : list Q :=
  [inject_Z (hr r); inject_Z (bp_sys r); inject_Z (bp_dia r);
   inject_Z (spo2 r); inject_Z (rr r); temp r].

(** [process_event(event_data, model)]; [now] is the wall clock of the
    call and [db_ok] tells whether the pool hands out a connection. *)
Definition process_event (now : Z) (db_ok : bool) (d : event_data) (model : Model)
    : M World unit :=
  pid ← getitem d "patient_id";
  let ts := parse_timestamp now d in
  modify (set_patient_states (ensure_state pid));;
  v_hr ← getitem d "hr" ≫= int_of;
  v_bp_sys ← getitem d "bp_sys" ≫= int_of;
  v_bp_dia ← getitem d "bp_dia" ≫= int_of;
  v_spo2 ← getitem d "spo2" ≫= int_of;
  v_rr ← getitem d "rr" ≫= int_of;
  v_temp ← getitem d "temp" ≫= float_of;
  let r := {| timestamp := ts; hr := v_hr; bp_sys := v_bp_sys; bp_dia := v_bp_dia;
              spo2 := v_spo2; rr := v_rr; temp := v_temp |} in
  add_reading_to pid r;;
  when (hr r >? 140) (print (THRESHOLD_CROSSED pid "hr" (hr r) ts));;
  when (spo2 r <? 90) (print (THRESHOLD_CROSSED pid "spo2" (spo2 r) ts));;
  let vector := vector_of r in
  let score_raw := decision_function model vector in
  let is_anomaly := predict model vector =? -1 in
  let anomaly_score := (- score_raw)%Q in
  (if db_ok then mret tt else raise (DbError "connection failed"));;
  when is_anomaly (
    w ← get;
    let w_10m := patient_states w !! pid
                 ≫= (fun st => get_aggregates np_mean round2 (w_10m st)) in
    let a_type := a_type_of r w_10m anomaly_score in
    insert_anomaly {| a_patient_id := pid; a_anomaly_type := a_type;
                      a_score := anomaly_score; a_timestamp := ts; a_details := r |};;
    print (ANOMALY_DETECTED pid a_type anomaly_score ts)).

(** The state [process_event] finds for [pid], created when missing, and
    the state and the outcome of the window update for the reading [r]. *)
Definition prior_state (pid : string) (ps : gmap string PatientStateManager)
    : PatientStateManager :=
  default (new_manager pid) (ps !! pid).

Definition updated_state (pid : string) (r : reading)
    (ps : gmap string PatientStateManager) : PatientStateManager :=
  (add_reading posix float_sub r (prior_state pid ps)).2.

Definition window_update (pid : string) (r : reading)
    (ps : gmap string PatientStateManager) : result unit :=
  (add_reading posix float_sub r (prior_state pid ps)).1.

(** The patient states, the scorer's flag and the row to insert, as
    [process_event] computes them for the patient [pid] and reading [r]. *)
Definition states_after (pid : string) (r : reading) (ps : gmap string PatientStateManager)
    : gmap string PatientStateManager :=
  <[pid := updated_state pid r ps]> (ensure_state pid ps).

Definition flagged (model : Model) (r : reading) : bool :=
  predict model (vector_of r) =? -1.

Definition row_of (model : Model) (pid : string) (r : reading)
    (ps : gmap string PatientStateManager) : AnomalyRow :=
  let anomaly_score := (- decision_function model (vector_of r))%Q in
  {| a_patient_id := pid;
     a_anomaly_type :=
       a_type_of r (ps !! pid ≫= (fun st => get_aggregates np_mean round2 (w_10m st)))
         anomaly_score;
     a_score := anomaly_score; a_timestamp := timestamp r; a_details := r |}.

(** The lines of the static threshold check for the reading [r]. *)
Definition threshold_lines (pid : string) (r : reading) : list LogLine :=
  (if hr r >? 140 then [THRESHOLD_CROSSED pid "hr" (hr r) (timestamp r)] else [])
  ++ (if spo2 r <? 90 then [THRESHOLD_CROSSED pid "spo2" (spo2 r) (timestamp r)] else []).

Definition conflicts (row : AnomalyRow) (table : list AnomalyRow) : bool :=
  anomalies_unique
  && existsb (same_key (a_patient_id row) (a_timestamp row) (a_anomaly_type row)) table.

(** *** The stream commands the worker issues *)

Definition set_group (name : string) (g : Group) (s : Stream) : Stream :=
  {| entries := entries s; groups := <[name := g]> (groups s) |}.

(** [XGROUP CREATE key group 0 MKSTREAM] *)
Definition xgroup_create (group : string) : M World unit := fun w =>
  match groups (redis w) !! group with
  | Some _ => (Raise (ResponseError "BUSYGROUP Consumer Group name already exists"), w)
  | None => (Ret tt, set_redis (set_group group {| last_delivered := 0; pel := [] |}) w)
  end.

(** [XREADGROUP GROUP group consumer COUNT count STREAMS key >]: the
    entries never delivered to the group so far, at most [count] of them;
    they become pending for [consumer]. *)
Definition xreadgroup (group consumer : string) (count : nat)
    : M World (list (nat * event_data)) := fun w =>
  match groups (redis w) !! group with
  | None => (Raise (ResponseError "NOGROUP No such consumer group"), w)
  | Some g =>
      let batch := take count (drop (last_delivered g) (entries (redis w))) in
      let ids := seq (last_delivered g) (length batch) in
      (Ret (zip ids batch),
       set_redis (set_group group
         {| last_delivered := (last_delivered g + length batch)%nat;
            pel := pel g ++ map (fun i => (i, consumer)) ids |}) w)
  end.

(** [XACK key group id] *)
Definition xack (group : string) (msg_id : nat) : M World unit := fun w =>
  match groups (redis w) !! group with
  | None => (Ret tt, w)
  | Some g =>
      (Ret tt,
       set_redis (set_group group
         {| last_delivered := last_delivered g;
            pel := filter (fun p => p.1 <> msg_id) (pel g) |}) w)
  end.

(** Entries appended by the ingest side between two polls. *)
Definition arrive (ds : list event_data) : M World unit :=
  modify (set_redis (fun s => {| entries := entries s ++ ds; groups := groups s |})).

Section Loop.

Variable model : Model.
Variable consumer : string.            (* CONSUMER_NAME *)
Variable clock : nat -> Z.             (* wall clock while entry [i] is processed *)
Variable db_ok : nat -> bool.          (* the pool's answer for entry [i] *)

(** The inner [for msg_id, data in messages] loop. *)
Fixpoint for_messages (msgs : list (nat * event_data)) : M World unit :=
  match msgs with
  | [] => mret tt
  | (msg_id, data) :: rest =>
      note_dispatch msg_id;;
      process_event (clock msg_id) (db_ok msg_id) data model;;
      xack GROUP_NAME msg_id;;
      for_messages rest
  end.

(** One turn of [while True]: the [try] body and its [except Exception]. *)
Definition loop_body : M World unit :=
  try_except
    (msgs ← xreadgroup GROUP_NAME consumer 10;
     for_messages msgs)
    (fun e => print (Error_in_loop e)).

(** The [while True] loop, one turn per element of [arrivals]. *)
Fixpoint main_loop (arrivals : list (list event_data)) : M World unit :=
  match arrivals with
  | [] => mret tt
  | ds :: rest => arrive ds;; loop_body;; main_loop rest
  end.

End Loop.

(** [main()]: [loaded] is the outcome of [joblib.load]. *)
Definition main (loaded : option Model) (consumer : string) (clock : nat -> Z)
    (db_ok : nat -> bool) (arrivals : list (list event_data)) : M World unit :=
  match loaded with
  | None => print CRITICAL_model_not_found
  | Some model =>
      try_except (xgroup_create GROUP_NAME)
        (fun e =>
           match e with
           | ResponseError msg =>
               (* [if "BUSYGROUP" not in str(e): raise] *)
               match String.index 0 "BUSYGROUP" msg with
               | Some _ => mret tt
               | None => raise e
               end
           | _ => raise e
           end);;
      main_loop model consumer clock db_ok arrivals
  end.

(** The outcome of the parsing steps of [process_event] when none of them
    raises: the patient id and the reading dictionary. *)
Definition decode (now : Z) (d : event_data) : option (string * reading) :=
  pid ← d !! "patient_id";
  v_hr ← d !! "hr" ≫= py_int;
  v_bp_sys ← d !! "bp_sys" ≫= py_int;
  v_bp_dia ← d !! "bp_dia" ≫= py_int;
  v_spo2 ← d !! "spo2" ≫= py_int;
  v_rr ← d !! "rr" ≫= py_int;
  v_temp ← d !! "temp" ≫= py_float;
  Some (pid, {| timestamp := parse_timestamp now d; hr := v_hr; bp_sys := v_bp_sys;
                bp_dia := v_bp_dia; spo2 := v_spo2; rr := v_rr; temp := v_temp |}).

(** Whether [process_event] returns on the entry [d]: its fields decode,
    the window update does not raise, the pool hands out a connection and
    the row, if one is inserted, violates no unique index. *)
Definition accepts (now : Z) (db_ok : bool) (d : event_data) (model : Model)
    (ps : gmap string PatientStateManager) (table : list AnomalyRow) : bool :=
  match decode now d with
  | None => false
  | Some (pid, r) =>
      returns (window_update pid r ps) && db_ok
      && negb (flagged model r && conflicts (row_of model pid r (states_after pid r ps)) table)
  end.

End WithLibraries.

(** The entry [i], delivered before the first [l0] entries were exhausted,
    is still pending for [GROUP_NAME], and everything handed to
    [process_event] since the history [d0] has an id of at least [l0]. *)
Definition left_pending (l0 i : nat) (d0 : list nat) (w : World) : Prop :=
  (exists g, groups (redis w) !! GROUP_NAME = Some g
             /\ (l0 <= last_delivered g)%nat /\ i ∈ map fst (pel g))
  /\ (exists new, dispatched w = d0 ++ new /\ Forall (fun j => (l0 <= j)%nat) new).

(** Since the history [d0], the entries handed to [process_event] have
    strictly increasing ids, all at least [l0] and all already delivered
    to [GROUP_NAME]. *)
Definition dispatched_in_order (l0 : nat) (d0 : list nat) (w : World) : Prop :=
  exists g new,
    groups (redis w) !! GROUP_NAME = Some g
    /\ dispatched w = d0 ++ new
    /\ StronglySorted lt new
    /\ Forall (fun j => (l0 <= j < last_delivered g)%nat) new
    /\ (l0 <= last_delivered g)%nat.

(** The ids pending for [group] in a world. *)
Definition pending_ids (group : string) (w : World) : list nat :=
  match groups (redis w) !! group with
  | Some g => map fst (pel g)
  | None => []
  end.

End Processor.

(** ** Stand-ins for the library functions, used by the examples *)

Module Examples.
Import Windows Processor.

Fixpoint digits_value (s : string) (acc : Z) : option Z :=
  match s with
  | EmptyString => Some acc
  | String c s' =>
      let n := Z.of_nat (Ascii.nat_of_ascii c) in
      if (48 <=? n) && (n <=? 57) then digits_value s' (10 * acc + (n - 48)) else None
  end.

(** [int] on a non-empty string of decimal digits; anything else raises. *)
Definition ex_int (s : string) : option Z :=
  match s with
  | EmptyString => None
  | _ => digits_value s 0
  end.

(** [float] restricted to the same strings. *)
Definition ex_float (s : string) : option Q := inject_Z <$> ex_int s.

(** A timestamp parser that accepts only a count of seconds; every other
    string, such as ["not-a-date"], is unparseable. *)
Definition ex_fromisoformat (s : string) : option Z := seconds <$> ex_int s.

(** A scorer that flags exactly the readings with [rr = 30], score 0. *)
Definition ex_model : Model :=
  {| decision_function := fun _ => 0%Q;
     predict := fun v =>
       match v !! 4%nat with
       | Some x => if Qeq_bool x 30 then -1 else 1
       | None => 1
       end |}.

(** [np.mean] and [round(., 2)] for the examples, which only take the
    mean of equal whole numbers: the mean is that number and rounding
    leaves it unchanged. *)
Definition ex_mean (xs : list Q) : Q :=
  Qred (fold_right Qplus 0%Q xs / inject_Z (Z.of_nat (length xs)))%Q.
Definition ex_round2 (q : Q) : Q := q.

Definition entry (ts rr : string) : event_data :=
  <["patient_id" := "pt-1"]> (<["timestamp" := ts]> (<["hr" := "72"]>
  (<["bp_sys" := "120"]> (<["bp_dia" := "80"]> (<["spo2" := "98"]>
  (<["rr" := rr]> (<["temp" := "37"]> ∅))))))).

Definition world0 : World :=
  {| patient_states := ∅; anomalies := []; stdout := [];
     redis := {| entries := []; groups := ∅ |}; dispatched := [] |}.

(** A restart: entry 0 was delivered to ["worker-1"] and never
    acknowledged. *)
Definition world_pending : World :=
  {| patient_states := ∅; anomalies := []; stdout := [];
     redis := {| entries := [entry "100" "30"];
                 groups := {[ GROUP_NAME := {| last_delivered := 1;
                                               pel := [(0%nat, "worker-1")] |} ]} |};
     dispatched := [] |}.

(** A reading with a heart rate of 180 that the scorer does not flag. *)
Definition hot_entry : event_data := <["hr" := "180"]> (entry "100" "16").

(** An entry without the [hr] field. *)
Definition broken_entry : event_data := delete "hr" (entry "100" "16").

(** An entry whose timestamp does not parse and whose [hr] is missing, and
    a stream that holds it, nothing delivered yet. *)
Definition undated_broken_entry : event_data := delete "hr" (entry "not-a-date" "30").

Definition world_undated_broken : World :=
  {| patient_states := ∅; anomalies := []; stdout := [];
     redis := {| entries := [undated_broken_entry];
                 groups := {[ GROUP_NAME := {| last_delivered := 0; pel := [] |} ]} |};
     dispatched := [] |}.

(** A stream of a broken entry followed by a sound one, nothing delivered
    yet. *)
Definition world_broken_first : World :=
  {| patient_states := ∅; anomalies := []; stdout := [];
     redis := {| entries := [broken_entry; entry "101" "16"];
                 groups := {[ GROUP_NAME := {| last_delivered := 0; pel := [] |} ]} |};
     dispatched := [] |}.

(** [process_event] and the worker loop with the stand-ins. *)
Definition ex_process (uniq : bool) (now : Z) (ok : bool) (d : event_data)
    : M World unit :=
  process_event ex_fromisoformat ex_int ex_float exact_posix exact_sub ex_mean ex_round2
    uniq now ok d ex_model.

Definition ex_for_messages (clock : nat -> Z) (db_ok : nat -> bool)
    (msgs : list (nat * event_data)) : M World unit :=
  for_messages ex_fromisoformat ex_int ex_float exact_posix exact_sub ex_mean ex_round2
    false ex_model clock db_ok msgs.

Definition ex_loop_body (consumer : string) : M World unit :=
  loop_body ex_fromisoformat ex_int ex_float exact_posix exact_sub ex_mean ex_round2
    false ex_model consumer (fun _ => 0) (fun _ => true).

Definition ex_main (consumer : string) (arrivals : list (list event_data))
    : M World unit :=
  main ex_fromisoformat ex_int ex_float exact_posix exact_sub ex_mean ex_round2
    false (Some ex_model) consumer (fun _ => 0) (fun _ => true) arrivals.

(** The world after [ds] were processed in turn, each at wall clock [now]
    with the store up. *)
Definition run (uniq : bool) (now : Z) (ds : list event_data) (w : World) : World :=
  foldl (fun w d => (ex_process uniq now true d w).2) w ds.

(** The reading the scorer flags, and the world after five unflagged
    readings of the same patient in the seconds before it. *)
Definition flagged_entry : event_data := entry "100" "30".

Definition flagged_reading : reading :=
  {| timestamp := seconds 100; hr := 72; bp_sys := 120; bp_dia := 80;
     spo2 := 98; rr := 30; temp := 37 |}.

Definition warm_world : World :=
  run true 0 [entry "95" "16"; entry "96" "16"; entry "97" "16"; entry "98" "16";
              entry "99" "16"] world0.

(** An entry whose timestamp does not parse, delivered to ["worker-1"] and
    not yet acknowledged. *)
Definition undated_entry : event_data := entry "not-a-date" "30".

Definition world_undated_pending : World :=
  {| patient_states := ∅; anomalies := []; stdout := [];
     redis := {| entries := [undated_entry];
                 groups := {[ GROUP_NAME := {| last_delivered := 1;
                                               pel := [(0%nat, "worker-1")] |} ]} |};
     dispatched := [] |}.

(** A worker crash and restart: the in-memory patient states are lost, the
    table and the stream stay. *)
Definition crash (w : World) : World := set_patient_states (fun _ => ∅) w.

End Examples.

(** * api/main.py *)

Module Api.
Import Validators.

(** A key of the Redis keyspace: its integer value and, when a TTL is set,
    the instant it expires. *)
Record CacheEntry : Type := {
  value : Z;
  expires_at : option Z
}.

(** A row of [vitals_events]. *)
Record EventRow : Type := {
  event_id : Z;
  row : VitalsReading
}.

(** Modelled from the spec: the durable schema, whose DDL is not among the
    sources: [patients(id pk)] and
    [vitals_events(id serial pk, patient_id fk, timestamp, ...,
    unique(patient_id, timestamp))]. *)
Record Db : Type := {
  patients : gset string;
  vitals_events : list EventRow;
  next_id : Z                      (* the serial's sequence *)
}.

(** A stream entry: the dumped reading and the event id. *)
Record Payload : Type := {
  p_reading : VitalsReading;
  p_timestamp : string;            (* [reading.timestamp.isoformat()] *)
  p_db_id : Z
}.

(** What the handler did to its three stores, in program order. *)
Inductive Effect : Type :=
| E_incr (key : string)
| E_expire (key : string)
| E_exists (key : string)
| E_commit (id : Z)                (* transaction committed *)
| E_rollback                       (* transaction failed, rolled back *)
| E_xadd (msg_id : nat)
| E_xadd_failed
| E_setex (key : string)
| E_setex_failed.

Record World : Type := {
  cache : gmap string CacheEntry;
  db : Db;
  stream : list Payload;           (* under [STREAM_KEY]; id = position *)
  trace : list Effect
}.

(** The clock and the availability of the collaborators during one call. *)
Record Env : Type := {
  now : Z;
  db_up : bool;
  xadd_ok : bool;
  setex_ok : bool
}.

Inductive Body : Type :=
| Queued (id : nat) (db_id : Z)              (* status "queued" *)
| Ignored (detail : string)                  (* status "ignored" *)
| Detail (detail : string)                   (* an HTTPException's detail *)
| ValidationErrors (locs : list string).

Record Response : Type := {
  status_code : Z;
  body : Body
}.

Definition set_cache (f : gmap string CacheEntry -> gmap string CacheEntry) (w : World) : World :=
  {| cache := f (cache w); db := db w; stream := stream w; trace := trace w |}.
Definition set_db (d : Db) (w : World) : World :=
  {| cache := cache w; db := d; stream := stream w; trace := trace w |}.
Definition set_stream (s : list Payload) (w : World) : World :=
  {| cache := cache w; db := db w; stream := s; trace := trace w |}.
Definition emit (e : Effect) (w : World) : World :=
  {| cache := cache w; db := db w; stream := stream w; trace := trace w ++ [e] |}.

(** *** Redis commands *)

(** The entry under [key] that has not expired at [t]. *)
Definition live (t : Z) (key : string) (c : gmap string CacheEntry) : option CacheEntry :=
  match c !! key with
  | Some e =>
      match expires_at e with
      | Some x => if t <? x then Some e else None
      | None => Some e
      end
  | None => None
  end.

(** [INCR key]: one atomic step; a missing key counts from zero and gets
    no TTL, an existing key keeps its TTL. *)
Definition incr (t : Z) (key : string) : M World Z := fun w =>
  let e' := match live t key (cache w) with
            | Some e => {| value := value e + 1; expires_at := expires_at e |}
            | None => {| value := 1; expires_at := None |}
            end in
  (Ret (value e'), emit (E_incr key) (set_cache <[key := e']> w)).

(** [EXPIRE key ttl] *)
Definition expire (t : Z) (key : string) (ttl : Z) : M World unit := fun w =>
  (Ret tt,
   emit (E_expire key)
     (set_cache (fun c =>
        match live t key c with
        | Some e => <[key := {| value := value e; expires_at := Some (t + seconds ttl) |}]> c
        | None => c
        end) w)).

(** [EXISTS key] *)
Definition exists_ (t : Z) (key : string) : M World bool := fun w =>
  (Ret (bool_decide (is_Some (live t key (cache w)))), emit (E_exists key) w).

(** [SETEX key ttl v] *)
Definition setex (env : Env) (key : string) (ttl : Z) (v : Z) : M World unit := fun w =>
  if setex_ok env then
    (Ret tt,
     emit (E_setex key)
       (set_cache <[key := {| value := v; expires_at := Some (now env + seconds ttl) |}]> w))
  else (Raise (RedisError "connection lost"), emit E_setex_failed w).

(** [XADD key * payload] *)
Definition xadd (env : Env) (p : Payload) : M World nat := fun w =>
  if xadd_ok env then
    (Ret (length (stream w)),
     emit (E_xadd (length (stream w))) (set_stream (stream w ++ [p]) w))
  else (Raise (RedisError "connection lost"), emit E_xadd_failed w).

(** *** The durable step *)

Definition same_event (r : VitalsReading) (e : EventRow) : bool :=
  bool_decide (patient_id (row e) = patient_id r /\ timestamp (row e) = timestamp r).

(** The [async with pool.connection()] block: patient upsert and event
    insert in one transaction, committed when the block is left, rolled
    back when a statement raises.  The sequence value drawn by a failed
    insert is not given back. *)
Definition persist (env : Env) (r : VitalsReading) : M World Z := fun w =>
  let d := db w in
  if negb (db_up env) then (Raise (DbError "connection failed"), emit E_rollback w)
  else if existsb (same_event r) (vitals_events d) then
    (Raise (DbError "duplicate key value violates unique constraint"),
     emit E_rollback
       (set_db {| patients := patients d; vitals_events := vitals_events d;
                  next_id := next_id d + 1 |} w))
  else
    (Ret (next_id d),
     emit (E_commit (next_id d))
       (set_db {| patients := {[patient_id r]} ∪ patients d;
                  vitals_events := vitals_events d ++ [{| event_id := next_id d; row := r |}];
                  next_id := next_id d + 1 |} w)).

(** *** The handler *)

Definition rate_key (pid : string) : string := "rate_limit:" +:+ pid.

Definition check_rate_limit (t : Z) (pid : string) : M World unit :=
  let key := rate_key pid in
  current ← incr t key;
  (if current =? 1 then expire t key 10 else mret tt);;
  if current >? 20
  then raise (HTTPException 429 "Rate limit exceeded for this patient ID")
  else mret tt.

Section WithLibraries.

Variable sha256_hexdigest : string -> string.
Variable isoformat : Z -> string.

Definition get_idempotency_key (r : VitalsReading) : string :=
  let raw := patient_id r +:+ ":" +:+ isoformat (timestamp r) in
  sha256_hexdigest raw.

Definition idem_key_of (r : VitalsReading) : string :=
  "idem:" +:+ get_idempotency_key r.

Definition ingest_vitals (env : Env) (r : VitalsReading) : M World Body :=
  (* 1. Rate Limiting *)
  check_rate_limit (now env) (patient_id r);;
  (* 2. Idempotency Check *)
  let idem_key := idem_key_of r in
  hit ← exists_ (now env) idem_key;
  if hit : bool then mret (Ignored "duplicate_event_cache") else
  (* 3. Persist to Postgres *)
  event_id ← try_except (persist env r)
    (fun e =>
       match e with
       | DbError _ => raise (HTTPException 500 "Database persistence failed")
       | _ => raise e
       end);
  (* 4. Push to Stream *)
  let payload := {| p_reading := r; p_timestamp := isoformat (timestamp r);
                    p_db_id := event_id |} in
  try_except
    (msg_id ← xadd env payload;
     (* 5. Set Idempotency Key *)
     setex env idem_key 600 1;;
     mret (Queued msg_id event_id))
    (fun e =>
       match e with
       | RedisError _ | ResponseError _ =>
           raise (HTTPException 503 "Stream service unavailable")
       | _ => raise e
       end).

(** The route [POST /ingest] with [status_code=202]: request validation,
    the handler, and the mapping of its outcome to an HTTP response. *)
Definition post_ingest (env : Env) (c : VitalsReading) (w : World) : Response * World :=
  match validate (now env) c with
  | inr locs => ({| status_code := 422; body := ValidationErrors locs |}, w)
  | inl r =>
      match ingest_vitals env r w with
      | (Ret b, w') => ({| status_code := 202; body := b |}, w')
      | (Raise (HTTPException s d), w') => ({| status_code := s; body := Detail d |}, w')
      | (Raise _, w') => ({| status_code := 500; body := Detail "Internal Server Error" |}, w')
      end
  end.

End WithLibraries.

(** The effects a call added to the trace. *)
Definition new_effects (w w' : World) : list Effect :=
  drop (length (trace w)) (trace w').

Definition is_commit (e : Effect) : Prop := exists i, e = E_commit i.
Definition is_xadd (e : Effect) : Prop := exists i, e = E_xadd i.
Definition is_setex (e : Effect) : Prop := exists k, e = E_setex k.

(** Every effect satisfying [Q] comes after one satisfying [P]. *)
Definition preceded_by (P Q : Effect -> Prop) (tr : list Effect) : Prop :=
  forall l1 e l2, tr = l1 ++ e :: l2 -> Q e -> exists e', e' ∈ l1 /\ P e'.

Definition stored (r : VitalsReading) (w : World) : Prop :=
  exists e, e ∈ vitals_events (db w) /\ row e = r.

(** The same attempt repeated at the given instants; the outcomes in order. *)
Fixpoint attempts (pid : string) (times : list Z) (w : World) : list (result unit) :=
  match times with
  | [] => []
  | t :: rest =>
      let '(res, w') := check_rate_limit t pid w in
      res :: attempts pid rest w'
  end.

(** The commit order as a scan of the trace: a stream append needs an
    earlier commit, a cache set needs an earlier stream append. *)
Fixpoint ordered (committed published : bool) (tr : list Effect) : bool :=
  match tr with
  | [] => true
  | E_commit _ :: tr' => ordered true published tr'
  | E_xadd _ :: tr' => committed && ordered committed true tr'
  | E_setex _ :: tr' => published && ordered committed published tr'
  | _ :: tr' => ordered committed published tr'
  end.

(** The value the rate counter of [pid] takes on an attempt at [t]. *)
Definition next_count (t : Z) (pid : string) (w : World) : Z :=
  match live t (rate_key pid) (cache w) with
  | Some e => value e + 1
  | None => 1
  end.

Definition rate_limited : exn :=
  HTTPException 429 "Rate limit exceeded for this patient ID".

(** The outcomes of [k] further attempts when the counter stands at [n]
    and does not expire meanwhile. *)
Fixpoint outcomes (n : Z) (k : nat) : list (result unit) :=
  match k with
  | O => []
  | S k' => (if n + 1 >? 20 then Raise rate_limited else Ret tt) :: outcomes (n + 1) k'
  end.

(** The key of the unique index of [vitals_events]. *)
Definition event_key (e : EventRow) : string * Z :=
  (patient_id (row e), timestamp (row e)).

(** The constraints of the durable schema: the unique index, the primary
    key drawn from the sequence, and the foreign key to [patients]. *)
Definition db_consistent (d : Db) : Prop :=
  NoDup (map event_key (vitals_events d))
  /\ NoDup (map event_id (vitals_events d))
  /\ Forall (fun e => event_id e < next_id d /\ patient_id (row e) ∈ patients d)
       (vitals_events d).

(** Every stream entry carries the id and the reading of a stored row. *)
Definition stream_resolved (w : World) : Prop :=
  Forall (fun p => exists e, e ∈ vitals_events (db w)
                             /\ event_id e = p_db_id p /\ row e = p_reading p)
    (stream w).

Definition empty_world : World :=
  {| cache := ∅;
     db := {| patients := ∅; vitals_events := []; next_id := 1 |};
     stream := []; trace := [] |}.

End Api.

(** ** Stand-ins for the library functions, used by the examples *)

Module ApiExamples.
Import Validators Api.

(** Any function serves as the digest in the examples; the identity keeps
    the keys readable. *)
Definition ex_sha256 (s : string) : string := s.

(** The timestamp printed as its count of microseconds. *)
Definition ex_isoformat (t : Z) : string := pretty t.

Definition env_up : Env :=
  {| now := 0; db_up := true; xadd_ok := true; setex_ok := true |}.

Definition env_stream_down : Env :=
  {| now := 0; db_up := true; xadd_ok := false; setex_ok := true |}.

Definition post (env : Env) (c : VitalsReading) (w : World) : Response * World :=
  post_ingest ex_sha256 ex_isoformat env c w.

(** The reading of the schema example, stamped at the epoch. *)
Definition c0 : VitalsReading := example_reading 0.

(** The world after [c0] was accepted once, with the rate counter of its
    patient pushed to the ceiling. *)
Definition world_at_ceiling : World :=
  set_cache <[rate_key (patient_id c0) := {| value := 20; expires_at := None |}]>
    (post env_up c0 empty_world).2.

End ApiExamples.

(** * Properties *)

(** ** Rationals *)

Lemma Qleb_le x y : Qleb x y = true <-> (x <= y)%Q.
Proof. apply Qle_bool_iff. Qed.

Lemma Qgtb_gt x y : Qgtb x y = true <-> (y < x)%Q.
Proof.
  unfold Qgtb. rewrite negb_true_iff. split.
  - intros H. apply Qnot_le_lt. intros Hle. apply Qle_bool_iff in Hle. congruence.
  - intros H. destruct (Qle_bool x y) eqn:E; [|done].
    apply Qle_bool_iff in E. exfalso. eapply Qlt_not_le; eauto.
Qed.

(** ** The validator *)

Section ValidatorProps.
Import Validators.

Lemma str_length_ok_spec a b s :
  str_length_ok a b s = true <-> (a <= String.length s <= b)%nat.
Proof.
  unfold str_length_ok. rewrite andb_true_iff, !Nat.leb_le. tauto.
Qed.

Lemma int_range_ok_spec a b v : int_range_ok a b v = true <-> a <= v <= b.
Proof. unfold int_range_ok. rewrite andb_true_iff, !Z.leb_le. tauto. Qed.

Lemma float_range_ok_spec a b v :
  float_range_ok a b v = true <-> (a <= v /\ v <= b)%Q.
Proof. unfold float_range_ok. rewrite andb_true_iff, !Qleb_le. tauto. Qed.

Lemma timestamp_not_future_spec current v :
  bool_decide (is_Some (timestamp_not_future current v)) = true
  <-> v - current <= seconds 300.
Proof.
  rewrite bool_decide_eq_true. unfold timestamp_not_future, seconds.
  destruct (v >? current) eqn:E1; [destruct (v - current >? 300 * 1000000) eqn:E2|].
  - split; [intros [x Hx]; discriminate | lia].
  - split; [lia | eauto].
  - split; [lia | eauto].
Qed.

Lemma err_if_nil ok loc : err_if ok loc = [] <-> ok = true.
Proof. destruct ok; simpl; split; congruence. Qed.

Lemma elem_of_err_if ok loc l : l ∈ err_if ok loc <-> l = loc /\ ok <> true.
Proof.
  destruct ok; simpl.
  - rewrite elem_of_nil. split; [tauto | intros [_ H]; congruence].
  - rewrite list_elem_of_singleton. split; [intros ->; split; congruence | tauto].
Qed.

Lemma errors_nil current c : errors current c = [] <-> in_spec current c.
Proof.
  unfold errors, in_spec, sys_greater_than_dia.
  rewrite !app_nil, !err_if_nil.
  rewrite str_length_ok_spec, timestamp_not_future_spec, !int_range_ok_spec,
    float_range_ok_spec.
  tauto.
Qed.

Lemma elem_of_errors current c loc :
  loc ∈ errors current c <-> offending current c loc.
Proof.
  unfold errors, offending, sys_greater_than_dia.
  rewrite !elem_of_app, !elem_of_err_if.
  rewrite str_length_ok_spec, timestamp_not_future_spec, !int_range_ok_spec,
    float_range_ok_spec.
  tauto.
Qed.

Lemma validate_inl current c r : validate current c = inl r -> r = c.
Proof. unfold validate. destruct (errors current c); congruence. Qed.

Lemma validate_inl_iff current c : validate current c = inl c <-> in_spec current c.
Proof.
  rewrite <- errors_nil. unfold validate.
  destruct (errors current c); split; congruence.
Qed.

Lemma validate_inr_iff current c :
  validate current c = inr (errors current c) <-> ~ in_spec current c.
Proof.
  rewrite <- errors_nil. unfold validate.
  destruct (errors current c); split; congruence.
Qed.

(** C9.  The validator accepts a candidate exactly when every field is in
    its inclusive range and the timestamp is at most 300 s after the clock;
    otherwise it fails with the list of offending locations, which holds a
    location exactly when that field breaks its constraint.  The boundary
    values [hr = 30] and [now + 299 s] are admitted, [hr = 29] and
    [now + 301 s] are rejected naming [hr] and [timestamp]. *)
Theorem C9_validator_ranges_and_skew (current : Z) (c : VitalsReading) :
  (validate current c = inl c <-> in_spec current c)
  /\ (validate current c = inr (errors current c) <-> ~ in_spec current c)
  /\ (forall loc, loc ∈ errors current c <-> offending current c loc)
  /\ validate current (with_hr 30 (example_reading current))
      = inl (with_hr 30 (example_reading current))
  /\ validate current (with_hr 29 (example_reading current)) = inr ["hr"]
  /\ validate current (example_reading (current + seconds 299))
      = inl (example_reading (current + seconds 299))
  /\ validate current (example_reading (current + seconds 300))
      = inl (example_reading (current + seconds 300))
  /\ validate current (example_reading (current + seconds 301)) = inr ["timestamp"].
Proof.
  split; [apply validate_inl_iff|].
  split; [apply validate_inr_iff|].
  split; [intros loc; apply elem_of_errors|].
  assert (Hts : forall d, 0 < d ->
    timestamp_not_future current (current + d)
    = if d >? seconds 300 then None else Some (current + d)).
  { intros d Hd. unfold timestamp_not_future.
    replace (current + d >? current) with true by lia.
    replace (current + d - current) with d by lia. done. }
  assert (H0 : timestamp_not_future current current = Some current).
  { unfold timestamp_not_future. replace (current >? current) with false by lia. done. }
  unfold validate, errors; simpl.
  rewrite H0, !Hts by (unfold seconds; lia).
  repeat split; reflexivity.
Qed.

End ValidatorProps.

(** ** Sliding windows *)

Section WindowProps.
Import Windows.

Variable posix : Z -> option Q.
Variable float_sub : Q -> Q -> Q.

Abbreviation popleft_while := (Windows.popleft_while posix).
Abbreviation _prune := (Windows._prune posix float_sub).
Abbreviation add_event := (Windows.add_event posix float_sub).
Abbreviation add_reading := (Windows.add_reading posix float_sub).
Abbreviation feed := (Windows.feed posix float_sub).
Abbreviation feed_window := (Windows.feed_window posix float_sub).
Abbreviation accurate := (Windows.accurate posix float_sub).
Abbreviation accurate_cutoff := (Windows.accurate_cutoff posix float_sub).
Abbreviation accurate_timestamp := (Windows.accurate_timestamp posix).

(** The loop pops a prefix of the deque, whether it ends or raises. *)
Lemma popleft_while_suffix cutoff evs :
  exists pre, evs = pre ++ (popleft_while cutoff evs).2.
Proof.
  induction evs as [|e evs [pre IH]]; simpl.
  - by exists [].
  - destruct (posix e.1) as [t|]; [|by exists []].
    destruct (Qgtb cutoff t).
    + exists (e :: pre). simpl. by f_equal.
    + by exists [].
Qed.

Lemma popleft_while_returns cutoff evs :
  Forall (fun e => is_Some (posix e.1)) evs ->
  (popleft_while cutoff evs).1 = Ret tt.
Proof.
  induction 1 as [|e evs [t Ht] _ IH]; simpl; [done|].
  rewrite Ht. by destruct (Qgtb cutoff t).
Qed.

(** When the loop ends, the head it stopped at is not below the cutoff. *)
Lemma popleft_while_head cutoff evs e rest :
  (popleft_while cutoff evs).1 = Ret tt ->
  (popleft_while cutoff evs).2 = e :: rest ->
  exists q, posix e.1 = Some q /\ Qgtb cutoff q = false.
Proof.
  induction evs as [|e0 evs IH]; simpl; [done|].
  destruct (posix e0.1) as [t|] eqn:Et; [|done].
  destruct (Qgtb cutoff t) eqn:Ec; [exact IH|].
  simpl. intros _ [= <- _]. eauto.
Qed.

(** With a clock and a cutoff that are each off by less than half a
    microsecond, an entry that is not below the float cutoff is at most
    the window size older than [t]. *)
Lemma kept_entry_within (size t a : Z) (c qa : Q) :
  (Qabs (qa - inject_Z a * (1 # 1000000)) < 1 # 2000000)%Q ->
  (Qabs (c - (inject_Z t * (1 # 1000000) - inject_Z size)) < 1 # 2000000)%Q ->
  Qgtb c qa = false ->
  t - a <= seconds size.
Proof.
  intros Ha Hc Hk. unfold Qgtb in Hk.
  apply negb_false_iff, Qle_bool_iff in Hk.
  apply Qabs_Qlt_condition in Ha as [Ha1 Ha2].
  apply Qabs_Qlt_condition in Hc as [Hc1 Hc2].
  unfold seconds.
  destruct (Z_le_gt_dec (t - a) (size * 1000000)) as [|Hgt]; [done|].
  exfalso.
  assert (Hz : (size * 1000000 + 1 + a <= t)%Z) by lia.
  rewrite Zle_Qle, !inject_Z_plus, inject_Z_mult in Hz.
  change (inject_Z 1000000) with 1000000%Q in Hz.
  change (inject_Z 1) with 1%Q in Hz.
  lra.
Qed.

Lemma add_event_suffix ts r w :
  size_seconds (add_event ts r w).2 = size_seconds w
  /\ exists pre, events w ++ [(ts, r)] = pre ++ events (add_event ts r w).2.
Proof.
  unfold Windows.add_event, Windows._prune. simpl.
  destruct (posix ts) as [t|]; [|split; [done | by exists []]].
  destruct (popleft_while_suffix (float_sub t (inject_Z (size_seconds w)))
              (events w ++ [(ts, r)])) as [pre Hpre].
  destruct (popleft_while _ _) as [res evs]. simpl in *.
  split; [done | by exists pre].
Qed.

Lemma add_event_returns ts r w :
  is_Some (posix ts) ->
  Forall (fun e => is_Some (posix e.1)) (events w) ->
  (add_event ts r w).1 = Ret tt.
Proof.
  intros [t Ht] Hall. unfold Windows.add_event, Windows._prune. simpl. rewrite Ht.
  pose proof (popleft_while_returns (float_sub t (inject_Z (size_seconds w)))
                (events w ++ [(ts, r)])) as H.
  destruct (popleft_while _ _) as [res evs]. simpl in *. apply H.
  apply Forall_app. split; [done|]. constructor; [simpl; eauto | constructor].
Qed.

(** After [add_event] returned on a deque in timestamp order, under an
    accurate clock, every retained entry is within the window. *)
Lemma add_event_within ts r w :
  (add_event ts r w).1 = Ret tt ->
  events_in_order (events w ++ [(ts, r)]) ->
  Forall (fun e => accurate_timestamp e.1) (events w ++ [(ts, r)]) ->
  accurate_cutoff (size_seconds w) ts ->
  within ts (add_event ts r w).2.
Proof.
  unfold Windows.add_event, Windows._prune, within, Windows.accurate_cutoff. simpl.
  destruct (posix ts) as [t|]; [|done].
  intros Hret Hord Hacc Hcut.
  set (c := float_sub t (inject_Z (size_seconds w))) in *.
  destruct (popleft_while_suffix c (events w ++ [(ts, r)])) as [pre Hpre].
  pose proof (popleft_while_head c (events w ++ [(ts, r)])) as Hhead.
  destruct (popleft_while c (events w ++ [(ts, r)])) as [res kept]. simpl in *.
  destruct kept as [|e rest]; [constructor|].
  destruct (Hhead e rest Hret eq_refl) as (q & Hq & Hk).
  rewrite Hpre in Hord, Hacc.
  unfold events_in_order in Hord. apply StronglySorted_app_1_r in Hord.
  apply Forall_app in Hacc as [_ Hacc].
  apply StronglySorted_cons in Hord as [Hle _].
  assert (He : ts - e.1 <= seconds (size_seconds w)).
  { apply Forall_cons in Hacc as [Hacc _].
    unfold Windows.accurate_timestamp in Hacc. rewrite Hq in Hacc.
    exact (kept_entry_within _ _ _ c q Hacc Hcut Hk). }
  constructor; [exact He|].
  eapply Forall_impl; [exact Hle|]. simpl. intros; lia.
Qed.

Lemma feed_window_snoc size rs r :
  feed_window size (rs ++ [r]) = (add_event (timestamp r) r (feed_window size rs)).2.
Proof. unfold Windows.feed_window. by rewrite foldl_app. Qed.

Lemma feed_window_size size rs : size_seconds (feed_window size rs) = size.
Proof.
  induction rs as [|r rs IH] using rev_ind; [done|].
  rewrite feed_window_snoc.
  destruct (add_event_suffix (timestamp r) r (feed_window size rs)) as [-> _].
  exact IH.
Qed.

(** Every retained entry is one of the readings fed, under its own
    timestamp. *)
Lemma feed_window_from size rs e :
  e ∈ events (feed_window size rs) -> e.2 ∈ rs /\ e.1 = timestamp e.2.
Proof.
  revert e. induction rs as [|r rs IH] using rev_ind; intros e.
  - simpl. by rewrite elem_of_nil.
  - rewrite feed_window_snoc. intros H.
    destruct (add_event_suffix (timestamp r) r (feed_window size rs))
      as [_ [pre Hpre]].
    assert (H' : e ∈ events (feed_window size rs) ++ [(timestamp r, r)])
      by (rewrite Hpre; apply elem_of_app; by right).
    apply elem_of_app in H' as [H'|H'].
    + apply IH in H' as [? ?]. split; [apply elem_of_app; by left | done].
    + apply list_elem_of_singleton in H' as ->. simpl.
      split; [apply elem_of_app; right; by apply list_elem_of_singleton | done].
Qed.

Lemma feed_window_snoc_in_order size rs r :
  in_order (rs ++ [r]) ->
  events_in_order (events (feed_window size rs)) ->
  events_in_order (events (feed_window size rs) ++ [(timestamp r, r)]).
Proof.
  intros Hs Hord. unfold in_order in Hs.
  apply StronglySorted_app in Hs as (Hle & _ & _).
  apply StronglySorted_app_2; [|exact Hord | repeat constructor].
  intros x1 x2 H1 H2. apply list_elem_of_singleton in H2 as ->. simpl.
  apply feed_window_from in H1 as [Hin ->].
  apply Hle; [done | by apply list_elem_of_singleton].
Qed.

Lemma feed_window_in_order size rs :
  in_order rs -> events_in_order (events (feed_window size rs)).
Proof.
  induction rs as [|r rs IH] using rev_ind; intros Hs.
  - constructor.
  - pose proof Hs as Hs'. unfold in_order in Hs'.
    apply StronglySorted_app in Hs' as (_ & Hrs & _).
    pose proof (feed_window_snoc_in_order size rs r Hs (IH Hrs)) as Hord.
    rewrite feed_window_snoc.
    destruct (add_event_suffix (timestamp r) r (feed_window size rs))
      as [_ [pre Hpre]].
    unfold events_in_order in *. rewrite Hpre in Hord.
    by apply StronglySorted_app_1_r in Hord.
Qed.

Lemma feed_window_defined size rs :
  Forall (fun x => is_Some (posix (timestamp x))) rs ->
  Forall (fun e => is_Some (posix e.1)) (events (feed_window size rs)).
Proof.
  intros Hall. apply Forall_forall. intros e He.
  apply feed_window_from in He as [Hin ->].
  rewrite Forall_forall in Hall. by apply Hall.
Qed.

Lemma accurate_timestamp_defined ts :
  accurate_timestamp ts -> is_Some (posix ts).
Proof. unfold Windows.accurate_timestamp. destruct (posix ts); [eauto | done]. Qed.

Lemma feed_window_returns size rs r :
  Forall (fun x => accurate_timestamp (timestamp x)) (rs ++ [r]) ->
  (add_event (timestamp r) r (feed_window size rs)).1 = Ret tt.
Proof.
  intros Hacc. apply Forall_app in Hacc as [Hrs Hr].
  apply Forall_cons in Hr as [Hr _].
  apply add_event_returns; [by apply accurate_timestamp_defined|].
  apply feed_window_defined.
  eapply Forall_impl; [exact Hrs|]. intros x. apply accurate_timestamp_defined.
Qed.

Lemma feed_window_within size rs r :
  in_order (rs ++ [r]) ->
  Forall (fun x => accurate_timestamp (timestamp x)) (rs ++ [r]) ->
  accurate_cutoff size (timestamp r) ->
  within (timestamp r) (feed_window size (rs ++ [r])).
Proof.
  intros Hs Hacc Hcut. rewrite feed_window_snoc.
  apply add_event_within.
  - by apply feed_window_returns.
  - apply feed_window_snoc_in_order; [done|].
    apply feed_window_in_order. unfold in_order in Hs.
    by apply StronglySorted_app in Hs as (_ & ? & _).
  - apply Forall_app in Hacc as [Hrs Hr]. apply Forall_app. split.
    + apply Forall_forall. intros e He.
      apply feed_window_from in He as [Hin ->].
      rewrite Forall_forall in Hrs. by apply Hrs.
    + apply Forall_cons in Hr as [Hr _]. by constructor.
  - by rewrite feed_window_size.
Qed.

(** [add_reading] when its three [add_event] calls return. *)
Lemma add_reading_returns r m :
  (add_event (timestamp r) r (w_30s m)).1 = Ret tt ->
  (add_event (timestamp r) r (w_2m m)).1 = Ret tt ->
  (add_event (timestamp r) r (w_10m m)).1 = Ret tt ->
  add_reading r m
  = (Ret tt, {| patient_id := patient_id m;
                w_30s := (add_event (timestamp r) r (w_30s m)).2;
                w_2m := (add_event (timestamp r) r (w_2m m)).2;
                w_10m := (add_event (timestamp r) r (w_10m m)).2 |}).
Proof.
  unfold Windows.add_reading.
  destruct (add_event (timestamp r) r (w_30s m)) as [[[]|e1] w1];
    destruct (add_event (timestamp r) r (w_2m m)) as [[[]|e2] w2];
    destruct (add_event (timestamp r) r (w_10m m)) as [[[]|e3] w3];
    simpl; intros; congruence.
Qed.

(** When [add_reading] returns, the 10-minute window went through its
    [add_event]. *)
Lemma add_reading_w_10m r m :
  (add_reading r m).1 = Ret tt ->
  w_10m (add_reading r m).2 = (add_event (timestamp r) r (w_10m m)).2.
Proof.
  unfold Windows.add_reading.
  destruct (add_event (timestamp r) r (w_30s m)) as [[[]|e1] w1];
    destruct (add_event (timestamp r) r (w_2m m)) as [[[]|e2] w2];
    destruct (add_event (timestamp r) r (w_10m m)) as [[[]|e3] w3];
    simpl; intros; congruence.
Qed.

Lemma add_reading_w_2m r m :
  (add_reading r m).1 = Ret tt ->
  w_2m (add_reading r m).2 = (add_event (timestamp r) r (w_2m m)).2.
Proof.
  unfold Windows.add_reading.
  destruct (add_event (timestamp r) r (w_30s m)) as [[[]|e1] w1];
    destruct (add_event (timestamp r) r (w_2m m)) as [[[]|e2] w2];
    destruct (add_event (timestamp r) r (w_10m m)) as [[[]|e3] w3];
    simpl; intros; congruence.
Qed.

(** The 30-second window receives the reading whatever happens next. *)
Lemma add_reading_w_30s r m :
  w_30s (add_reading r m).2 = (add_event (timestamp r) r (w_30s m)).2.
Proof.
  unfold Windows.add_reading.
  destruct (add_event (timestamp r) r (w_30s m)) as [[[]|e1] w1];
    destruct (add_event (timestamp r) r (w_2m m)) as [[[]|e2] w2];
    destruct (add_event (timestamp r) r (w_10m m)) as [[[]|e3] w3];
    reflexivity.
Qed.

Lemma feed_snoc pid rs r :
  feed pid (rs ++ [r]) = (add_reading r (feed pid rs)).2.
Proof. unfold Windows.feed. by rewrite foldl_app. Qed.

Lemma feed_windows pid rs :
  Forall (fun x => accurate_timestamp (timestamp x)) rs ->
  w_30s (feed pid rs) = feed_window 30 rs
  /\ w_2m (feed pid rs) = feed_window 120 rs
  /\ w_10m (feed pid rs) = feed_window 600 rs.
Proof.
  induction rs as [|r rs IH] using rev_ind; intros Hacc; [done|].
  destruct IH as (H1 & H2 & H3); [by apply Forall_app in Hacc as [? _]|].
  rewrite feed_snoc, add_reading_returns;
    rewrite ?H1, ?H2, ?H3; try by apply feed_window_returns.
  simpl. by rewrite !feed_window_snoc.
Qed.

End WindowProps.

Section WindowExamples.
Import Windows.

(** C5, as stated, fails: after the readings at 100 s, 50 s (out of order)
    and 110 s, the 30 s window still holds the entry of 50 s, which is 60 s
    older than the last reading; the loop stops at the head (100 s), which
    is in range, and never looks behind it. *)
Lemma C5_out_of_order_entry_survives :
  ~ all_within (timestamp (at_second 110))
      (feed exact_posix exact_sub "pt-1" [at_second 100; at_second 50; at_second 110]).
Proof.
  intros [H _]. unfold within in H.
  assert (E : events (w_30s (feed exact_posix exact_sub "pt-1"
                               [at_second 100; at_second 50; at_second 110]))
              = [(seconds 100, at_second 100); (seconds 50, at_second 50);
                 (seconds 110, at_second 110)]) by (vm_compute; reflexivity).
  rewrite E in H.
  apply Forall_cons in H as [_ H]. apply Forall_cons in H as [H _].
  vm_compute in H. by apply H.
Qed.

End WindowExamples.

Section WindowClaim.
Import Windows.

Variable posix : Z -> option Q.
Variable float_sub : Q -> Q -> Q.

(** C5, amended.  For every sequence of readings of one patient that
    arrives in non-decreasing timestamp order and whose timestamps the
    float clock resolves (timestamp() and the cutoffs computed from it are
    off by less than half a microsecond), adding each reading [r] returns
    and afterwards every entry retained in the 30 s, 120 s and 600 s
    windows satisfies [r.timestamp - entry.timestamp <= window size]. *)
Theorem C5_in_order_windows_within (pid : string) (rs : list reading) (r : reading) :
  in_order (rs ++ [r]) ->
  Forall (fun x => accurate posix float_sub (timestamp x)) (rs ++ [r]) ->
  (add_reading posix float_sub r (feed posix float_sub pid rs)).1 = Ret tt
  /\ all_within (timestamp r) (feed posix float_sub pid (rs ++ [r])).
Proof.
  intros Hs Hacc.
  assert (Hts : Forall (fun x => accurate_timestamp posix (timestamp x)) (rs ++ [r])).
  { eapply Forall_impl; [exact Hacc|]. by intros x [? _]. }
  assert (Hr : accurate posix float_sub (timestamp r)).
  { apply Forall_app in Hacc as [_ Hr]. by apply Forall_cons in Hr as [? _]. }
  destruct Hr as (_ & Hc30 & Hc120 & Hc600).
  split.
  - destruct (feed_windows posix float_sub pid rs) as (H1 & H2 & H3);
      [by apply Forall_app in Hts as [? _]|].
    rewrite add_reading_returns; rewrite ?H1, ?H2, ?H3;
      try by apply feed_window_returns.
    done.
  - unfold all_within.
    destruct (feed_windows posix float_sub pid (rs ++ [r]) Hts) as (-> & -> & ->).
    repeat split; apply feed_window_within; done.
Qed.

End WindowClaim.

Section WindowClaimExamples.
Import Windows.

Lemma C5_in_order_windows_within_witness :
  all_within (timestamp (at_second 110))
    (feed exact_posix exact_sub "pt-1" ([at_second 50; at_second 100] ++ [at_second 110])).
Proof.
  apply (C5_in_order_windows_within exact_posix exact_sub "pt-1"
           [at_second 50; at_second 100] (at_second 110)).
  - unfold in_order. simpl.
    repeat (apply SSorted_cons || apply SSorted_nil || apply Forall_cons_2
            || apply Forall_nil_2); vm_compute; discriminate.
  - repeat (apply Forall_cons_2 || apply Forall_nil_2);
      repeat split; vm_compute; reflexivity.
Defined.

End WindowClaimExamples.

(** ** The worker's [process_event] *)

Lemma run_bind {S A B} (m : M S A) (f : A -> M S B) s a s' :
  m s = (Ret a, s') -> (m ≫= f) s = f a s'.
Proof. intros H. unfold mbind, M_bind. by rewrite H. Qed.

Lemma run_bind_raise {S A B} (m : M S A) (f : A -> M S B) s e s' :
  m s = (Raise e, s') -> (m ≫= f) s = (Raise e, s').
Proof. intros H. unfold mbind, M_bind. by rewrite H. Qed.

Section ProcessorProps.
Import Windows Processor.

Variable fromisoformat : string -> option Z.
Variable py_int : string -> option Z.
Variable py_float : string -> option Q.
Variable posix : Z -> option Q.
Variable float_sub : Q -> Q -> Q.
Variable np_mean : list Q -> Q.
Variable round2 : Q -> Q.
Variable anomalies_unique : bool.

Lemma field_int_ok d k v (w : World) :
  d !! k ≫= py_int = Some v ->
  (getitem d k ≫= int_of py_int) w = (Ret v, w).
Proof.
  intros H. unfold getitem, int_of.
  destruct (d !! k) as [s|]; simpl in H; [|done].
  erewrite run_bind by reflexivity. by rewrite H.
Qed.

Lemma field_float_ok d k v (w : World) :
  d !! k ≫= py_float = Some v ->
  (getitem d k ≫= float_of py_float) w = (Ret v, w).
Proof.
  intros H. unfold getitem, float_of.
  destruct (d !! k) as [s|]; simpl in H; [|done].
  erewrite run_bind by reflexivity. by rewrite H.
Qed.

Abbreviation process_event :=
  (Processor.process_event fromisoformat py_int py_float posix float_sub np_mean round2
     anomalies_unique).
Abbreviation decode := (Processor.decode fromisoformat py_int py_float).
Abbreviation conflicts := (Processor.conflicts anomalies_unique).
Abbreviation row_of := (Processor.row_of float_sub np_mean round2).
Abbreviation a_type_of := (Processor.a_type_of float_sub).
Abbreviation states_after := (Processor.states_after posix float_sub).
Abbreviation updated_state := (Processor.updated_state posix float_sub).
Abbreviation window_update := (Processor.window_update posix float_sub).
Abbreviation add_reading_to := (Processor.add_reading_to posix float_sub).
Abbreviation accepts :=
  (Processor.accepts fromisoformat py_int py_float posix float_sub np_mean round2
     anomalies_unique).

Lemma ensure_state_lookup pid ps :
  ensure_state pid ps !! pid = Some (prior_state pid ps).
Proof.
  unfold ensure_state, prior_state.
  destruct (ps !! pid) as [st|] eqn:E; simpl; [done | by rewrite lookup_insert_eq].
Qed.

(** The window update inside [process_event], after the state was got or
    created. *)
Lemma add_reading_to_run pid r w :
  add_reading_to pid r (set_patient_states (ensure_state pid) w)
  = (window_update pid r (patient_states w),
     set_patient_states (fun _ => states_after pid r (patient_states w)) w).
Proof.
  unfold Processor.add_reading_to, Processor.window_update, Processor.states_after,
    Processor.updated_state.
  simpl. rewrite ensure_state_lookup.
  destruct (add_reading posix float_sub r (prior_state pid (patient_states w)))
    as [res st']. reflexivity.
Qed.

Lemma states_after_lookup pid r ps :
  states_after pid r ps !! pid = Some (updated_state pid r ps).
Proof. unfold Processor.states_after. by rewrite lookup_insert_eq. Qed.

(** What a call of [process_event] on a decodable entry returns and the
    world it leaves. *)
Lemma process_event_run now db_ok d model w pid r :
  decode now d = Some (pid, r) ->
  let ps' := states_after pid r (patient_states w) in
  let row := row_of model pid r ps' in
  let inserts := returns (window_update pid r (patient_states w)) && db_ok
                 && flagged model r && negb (conflicts row (anomalies w)) in
  exists w',
    process_event now db_ok d model w
    = (match window_update pid r (patient_states w) with
       | Raise e => Raise e
       | Ret _ =>
           if db_ok then
             if flagged model r && conflicts row (anomalies w)
             then Raise (DbError "unique violation") else Ret tt
           else Raise (DbError "connection failed")
       end, w')
    /\ patient_states w' = ps'
    /\ anomalies w' = (if inserts then anomalies w ++ [row] else anomalies w)
    /\ redis w' = redis w
    /\ dispatched w' = dispatched w
    /\ stdout w'
       = stdout w
         ++ (if returns (window_update pid r (patient_states w))
             then threshold_lines pid r else [])
         ++ (if inserts
             then [ANOMALY_DETECTED pid (a_anomaly_type row) (a_score row) (timestamp r)]
             else []).
Proof.
  unfold Processor.decode, Processor.process_event. intros H.
  simplify_option_eq.
  erewrite run_bind by (unfold getitem; rewrite Heqo; reflexivity).
  erewrite run_bind by reflexivity.
  do 5 (erewrite run_bind by (apply field_int_ok; eapply bind_Some; eauto)).
  erewrite run_bind by (apply field_float_ok; eapply bind_Some; eauto).
  simpl.
  set (r := {| timestamp := _ |}).
  pose proof (add_reading_to_run pid r w) as Hadd. simpl in Hadd.
  destruct (window_update pid r (patient_states w)) as [[]|e] eqn:Ewin.
  - erewrite run_bind by exact Hadd. simpl.
    unfold flagged, Processor.conflicts, Processor.row_of, when, insert_anomaly,
      threshold_lines.
    fold r. simpl.
    repeat match goal with
           | |- context [if ?b then print _ else _] => destruct b
           end;
      destruct db_ok, (predict model (vector_of r) =? -1), anomalies_unique; simpl;
      unfold mbind, M_bind; simpl;
      try (destruct (existsb _ (anomalies w)); simpl);
      eexists; (split; [reflexivity|]); simpl;
      rewrite <- ?app_assoc, ?app_nil_r; done.
  - erewrite run_bind_raise by exact Hadd.
    eexists. split; [reflexivity|]. simpl. rewrite app_nil_r. done.
Qed.

Lemma field_int_fail d k (w : World) :
  d !! k ≫= py_int = None ->
  exists e, (getitem d k ≫= int_of py_int) w = (Raise e, w).
Proof.
  intros H. unfold getitem, int_of.
  destruct (d !! k) as [s|]; simpl in H.
  - erewrite run_bind by reflexivity. rewrite H. by eexists.
  - erewrite run_bind_raise by reflexivity. by eexists.
Qed.

Lemma field_float_fail d k (w : World) :
  d !! k ≫= py_float = None ->
  exists e, (getitem d k ≫= float_of py_float) w = (Raise e, w).
Proof.
  intros H. unfold getitem, float_of.
  destruct (d !! k) as [s|]; simpl in H.
  - erewrite run_bind by reflexivity. rewrite H. by eexists.
  - erewrite run_bind_raise by reflexivity. by eexists.
Qed.

(** An entry with a missing or malformed field makes [process_event] raise
    before anything is written: the world stays as it was, except that the
    state of its patient may have been created. *)
Lemma process_event_undecodable now db_ok d model w :
  decode now d = None ->
  exists e,
    process_event now db_ok d model w
    = (Raise e,
       match d !! "patient_id" with
       | Some pid => set_patient_states (ensure_state pid) w
       | None => w
       end).
Proof.
  unfold Processor.decode, Processor.process_event. intros H.
  destruct (d !! "patient_id") as [pid|] eqn:Epid; simpl in H;
    [|erewrite run_bind_raise by (unfold getitem; rewrite Epid; reflexivity);
      by eexists].
  erewrite run_bind by (unfold getitem; rewrite Epid; reflexivity).
  erewrite run_bind by reflexivity.
  repeat
    match type of H with
    | (?o ≫= _) = None =>
        let E := fresh "E" in
        destruct o eqn:E; simpl in H;
        [ first [ erewrite run_bind by (apply field_int_ok; exact E)
                | erewrite run_bind by (apply field_float_ok; exact E) ]
        | first [ destruct (field_int_fail _ _
                    (set_patient_states (ensure_state pid) w) E) as [e He]
                | destruct (field_float_fail _ _
                    (set_patient_states (ensure_state pid) w) E) as [e He] ];
          erewrite run_bind_raise by exact He; by eexists ]
    end.
  discriminate.
Qed.

(** [process_event] returns exactly on the entries it accepts. *)
Lemma process_event_returns now db_ok d model w :
  returns (process_event now db_ok d model w).1
  = accepts now db_ok d model (patient_states w) (anomalies w).
Proof.
  unfold Processor.accepts.
  destruct (decode now d) as [[pid r]|] eqn:E.
  - destruct (process_event_run now db_ok d model w pid r E) as (w' & -> & _).
    simpl. destruct (window_update pid r (patient_states w)) as [[]|e]; [|done].
    simpl. destruct db_ok; [|done]. simpl.
    by destruct (flagged model r && _).
  - by destruct (process_event_undecodable now db_ok d model w E) as [e ->].
Qed.

(** [process_event] touches neither the stream nor the history. *)
Lemma process_event_frame now ok d model w :
  redis (process_event now ok d model w).2 = redis w
  /\ dispatched (process_event now ok d model w).2 = dispatched w.
Proof.
  destruct (decode now d) as [[pid r]|] eqn:E.
  - destruct (process_event_run now ok d model w pid r E)
      as (w' & -> & _ & _ & ? & ? & _). done.
  - destruct (process_event_undecodable now ok d model w E) as [e ->].
    simpl. by destruct (d !! "patient_id").
Qed.

(** The code's classification is the priority list over the entries of the
    window. *)
Lemma a_type_of_priority r win score :
  a_type_of r (get_aggregates np_mean round2 win) score
  = kind_by_priority (length (events win))
      (Qabs (float_sub (inject_Z (hr r))
               (round2 (np_mean (map (fun e => inject_Z (hr e.2)) (events win))))))
      (Qabs (float_sub (inject_Z (spo2 r))
               (round2 (np_mean (map (fun e => inject_Z (spo2 e.2)) (events win))))))
      score.
Proof.
  unfold Processor.a_type_of, kind_by_priority, get_aggregates.
  destruct (last (events win)) as [e|] eqn:El.
  - cbn [count avg_hr avg_spo2].
    destruct (Z.of_nat (length (events win)) >? 5) eqn:E5;
      destruct (6 <=? length (events win))%nat eqn:E6; try reflexivity; exfalso;
      (apply Nat.leb_le in E6 || apply Nat.leb_gt in E6); lia.
  - apply last_None in El. rewrite El. done.
Qed.

Lemma kind_by_priority_closed n dh ds score :
  kind_by_priority n dh ds score ∈ closed_kinds.
Proof.
  unfold kind_by_priority, closed_kinds.
  repeat match goal with |- context [if ?b then _ else _] => destruct b end;
    set_solver.
Qed.

Lemma a_type_of_closed r agg score : a_type_of r agg score ∈ closed_kinds.
Proof.
  unfold Processor.a_type_of, closed_kinds.
  destruct agg as [agg|]; [|set_solver].
  repeat match goal with |- context [if ?b then _ else _] => destruct b end;
    set_solver.
Qed.

(** C6.  When the scorer flags a decodable reading (and the window update
    returns and the store takes the row), [process_event] persists exactly
    one anomaly row.  Its kind follows the priority list over the entries
    of the patient's 10-minute window as it stands after the reading was
    added (what pruning left of the earlier entries and the reading): with
    at least 6 entries, spike if the heart-rate deviation from the window
    average exceeds 20, else drop if the SpO2 deviation exceeds 5, else
    multi-signal if the score exceeds 0.2, else drift; with 5 or fewer
    entries, spike.  The kind is always one of spike, drop, drift,
    multi-signal. *)
Theorem C6_anomaly_kind_priority now db_ok d model w pid r :
  decode now d = Some (pid, r) ->
  let w' := (process_event now db_ok d model w).2 in
  let before := events (w_10m (prior_state pid (patient_states w))) in
  let evs := events (w_10m (updated_state pid r (patient_states w))) in
  let avg_hr_10m := round2 (np_mean (map (fun e => inject_Z (hr e.2)) evs)) in
  let avg_spo2_10m := round2 (np_mean (map (fun e => inject_Z (spo2 e.2)) evs)) in
  let score := (- decision_function model (vector_of r))%Q in
  let kind := kind_by_priority (length evs)
                (Qabs (float_sub (inject_Z (hr r)) avg_hr_10m))
                (Qabs (float_sub (inject_Z (spo2 r)) avg_spo2_10m)) score in
  let row := {| a_patient_id := pid; a_anomaly_type := kind; a_score := score;
                a_timestamp := timestamp r; a_details := r |} in
  let updated := returns (window_update pid r (patient_states w)) in
  kind ∈ closed_kinds
  /\ ((length evs <= 5)%nat -> kind = "spike")
  /\ (updated = true -> exists pre, before ++ [(timestamp r, r)] = pre ++ evs)
  /\ anomalies w'
     = (if updated && db_ok && flagged model r && negb (conflicts row (anomalies w))
        then anomalies w ++ [row] else anomalies w)
  /\ (forall r0 agg s0, a_type_of r0 agg s0 ∈ closed_kinds).
Proof.
  intros H. destruct (process_event_run now db_ok d model w pid r H)
    as (w' & Hrun & Hps & Han & _).
  rewrite Hrun. simpl. rewrite Han.
  unfold Processor.row_of. rewrite states_after_lookup. simpl.
  rewrite a_type_of_priority.
  split; [apply kind_by_priority_closed|].
  split; [intros Hn; unfold kind_by_priority;
          replace (6 <=? _)%nat with false
            by (symmetry; apply Nat.leb_gt; lia); done|].
  split.
  - unfold Processor.window_update, Processor.updated_state. intros Hret.
    destruct (add_reading posix float_sub r (prior_state pid (patient_states w)))
      as [res st'] eqn:Eadd.
    simpl in Hret. destruct res as [[]|e]; [|done].
    pose proof (add_reading_w_10m posix float_sub r
                  (prior_state pid (patient_states w))) as Hw.
    rewrite Eadd in Hw. simpl in Hw |- *. rewrite Hw by done.
    by destruct (add_event_suffix posix float_sub (timestamp r) r
                   (w_10m (prior_state pid (patient_states w)))) as [_ ?].
  - split; [done|]. intros. apply a_type_of_closed.
Qed.

(** The fields other than the timestamp do not depend on the clock. *)
Lemma decode_clock now1 now2 d pid1 r1 pid2 r2 :
  decode now1 d = Some (pid1, r1) ->
  decode now2 d = Some (pid2, r2) ->
  pid1 = pid2 /\ vector_of r1 = vector_of r2.
Proof.
  unfold Processor.decode. intros H1 H2. simplify_option_eq. done.
Qed.

Lemma decode_timestamp now d pid r :
  decode now d = Some (pid, r) -> timestamp r = parse_timestamp fromisoformat now d.
Proof. unfold Processor.decode. intros H. simplify_option_eq. done. Qed.


Lemma getitem_insert_ne (d : event_data) k k' v :
  k <> k' -> getitem (<[k' := v]> d) k = getitem d k.
Proof. intros Hne. unfold getitem. by rewrite lookup_insert_ne. Qed.

(** An entry whose timestamp is replaced by the wall clock is processed as
    an entry that carries the wall clock as its timestamp. *)
Lemma process_event_substitutes now db_ok d model s :
  d !! "timestamp" ≫= fromisoformat = None ->
  fromisoformat s = Some now ->
  process_event now db_ok d model
  = process_event now db_ok (<["timestamp" := s]> d) model.
Proof.
  intros Hts Hs. unfold Processor.process_event.
  rewrite !getitem_insert_ne by done.
  unfold parse_timestamp. rewrite Hts, lookup_insert_eq. simpl. rewrite Hs.
  reflexivity.
Qed.

Lemma decode_patient_id now d pid r :
  decode now d = Some (pid, r) -> d !! "patient_id" = Some pid.
Proof. unfold Processor.decode. intros H. by simplify_option_eq. Qed.


(** ** The worker loop *)

Variable model : Model.
Variable consumer : string.
Variable clock : nat -> Z.
Variable db_ok : nat -> bool.

Abbreviation for_messages :=
  (Processor.for_messages fromisoformat py_int py_float posix float_sub np_mean round2
     anomalies_unique model clock db_ok).
Abbreviation loop_body :=
  (Processor.loop_body fromisoformat py_int py_float posix float_sub np_mean round2
     anomalies_unique model consumer clock db_ok).
Abbreviation main_loop :=
  (Processor.main_loop fromisoformat py_int py_float posix float_sub np_mean round2
     anomalies_unique model consumer clock db_ok).
Abbreviation main :=
  (Processor.main fromisoformat py_int py_float posix float_sub np_mean round2
     anomalies_unique).

Lemma pending_ids_frame group w w' :
  redis w' = redis w -> pending_ids group w' = pending_ids group w.
Proof. unfold pending_ids. by intros ->. Qed.

Lemma map_fst_filter_ne (j : nat) (l : list (nat * string)) :
  map fst (filter (fun p => p.1 <> j) l) = filter (fun i => i <> j) (map fst l).
Proof.
  induction l as [|[i c] l IH]; [done|].
  rewrite filter_cons. simpl. rewrite filter_cons.
  destruct (decide (i <> j)); simpl; by rewrite IH.
Qed.

(** [XACK] removes the id from the pending list and touches nothing else. *)
Lemma xack_run group j w :
  exists w',
    xack group j w = (Ret tt, w')
    /\ pending_ids group w' = filter (fun i => i <> j) (pending_ids group w)
    /\ dispatched w' = dispatched w
    /\ anomalies w' = anomalies w
    /\ patient_states w' = patient_states w
    /\ (forall g, groups (redis w) !! group = Some g ->
          exists g', groups (redis w') !! group = Some g'
                     /\ last_delivered g' = last_delivered g).
Proof.
  unfold xack, pending_ids.
  destruct (groups (redis w) !! group) as [g|] eqn:E.
  - eexists. split; [reflexivity|]. simpl. rewrite lookup_insert_eq. simpl.
    split; [apply map_fst_filter_ne|]. repeat split.
    intros g0 [= <-]. eauto.
  - eexists. split; [reflexivity|]. rewrite E. repeat split. intros ? [=].
Qed.

(** One entry through the inner loop: it is acknowledged exactly when
    [process_event] returns on it. *)
Lemma for_messages_one i d w :
  let turn := for_messages [(i, d)] w in
  returns turn.1
  = accepts (clock i) (db_ok i) d model (patient_states w) (anomalies w)
  /\ (returns turn.1 = true -> i ∉ pending_ids GROUP_NAME turn.2)
  /\ (returns turn.1 = false ->
      pending_ids GROUP_NAME turn.2 = pending_ids GROUP_NAME w).
Proof.
  cbn [Processor.for_messages]. cbv zeta.
  erewrite run_bind by reflexivity.
  unfold note_dispatch, modify. simpl.
  set (w0 := {| patient_states := _; dispatched := dispatched w ++ [i] |}).
  pose proof (process_event_returns (clock i) (db_ok i) d model w0) as Hret.
  change (patient_states w0) with (patient_states w) in Hret.
  change (anomalies w0) with (anomalies w) in Hret.
  destruct (process_event_frame (clock i) (db_ok i) d model w0) as [Hr _].
  destruct (process_event (clock i) (db_ok i) d model w0) as [[[]|e] w2] eqn:Erun;
    simpl in Hret, Hr.
  - erewrite run_bind by exact Erun.
    destruct (xack_run GROUP_NAME i w2) as (w3 & Hack & Hp3 & _).
    erewrite run_bind by exact Hack. simpl.
    split; [exact Hret|]. split; [|done].
    intros _. rewrite Hp3. intros Hin.
    apply list_elem_of_filter in Hin as [Hne _]. done.
  - erewrite run_bind_raise by exact Erun. simpl.
    split; [exact Hret|]. split; [done|].
    intros _. by apply pending_ids_frame.
Qed.


Lemma try_except_logged (m : M World unit) w :
  (try_except m (fun e => print (Error_in_loop e)) w).1 = Ret tt.
Proof. unfold try_except. destruct (m w) as [[[]|e] w']; reflexivity. Qed.

Lemma loop_body_returns w : (loop_body w).1 = Ret tt.
Proof. apply try_except_logged. Qed.

Lemma main_loop_returns (arrivals : list (list event_data)) (w : World) :
  (main_loop arrivals w).1 = Ret tt.
Proof.
  revert w. induction arrivals as [|ds rest IH]; intros w; [reflexivity|].
  cbn [Processor.main_loop].
  erewrite run_bind by reflexivity.
  pose proof (loop_body_returns
                (set_redis (fun s => {| entries := entries s ++ ds;
                                        groups := groups s |}) w)) as Hb.
  destruct (loop_body _) as [res w1] eqn:El. simpl in Hb. subst res.
  erewrite run_bind by exact El. apply IH.
Qed.

Lemma left_pending_frame l0 i d0 w w' :
  redis w' = redis w -> dispatched w' = dispatched w ->
  left_pending l0 i d0 w -> left_pending l0 i d0 w'.
Proof. unfold left_pending. intros -> ->. done. Qed.

Lemma left_pending_dispatch l0 i d0 j w :
  (l0 <= j)%nat -> left_pending l0 i d0 w ->
  left_pending l0 i d0 (note_dispatch j w).2.
Proof.
  intros Hj [Hg (new & Hd & Hall)]. split; [exact Hg|].
  exists (new ++ [j]). simpl. rewrite Hd, app_assoc. split; [done|].
  apply Forall_app. split; [done|]. by constructor.
Qed.

Lemma left_pending_xack l0 i d0 j w :
  (i < l0)%nat -> (l0 <= j)%nat -> left_pending l0 i d0 w ->
  left_pending l0 i d0 (xack GROUP_NAME j w).2.
Proof.
  intros Hi Hj [(g & Hg & Hl & Hin) Hd]. unfold xack. rewrite Hg. simpl.
  split; [|exact Hd]. eexists. simpl. rewrite lookup_insert_eq.
  split; [reflexivity|]. simpl. split; [done|].
  apply list_elem_of_fmap in Hin as ([i' c] & Hi' & Hin). simpl in Hi'. subst i'.
  apply list_elem_of_fmap. exists (i, c). split; [done|].
  apply list_elem_of_filter. split; [simpl; lia | done].
Qed.

Lemma for_messages_left_pending l0 i d0 msgs w :
  (i < l0)%nat -> Forall (fun m => (l0 <= m.1)%nat) msgs ->
  left_pending l0 i d0 w -> left_pending l0 i d0 (for_messages msgs w).2.
Proof.
  intros Hi Hall. revert w.
  induction Hall as [|[j data] msgs Hj Hall IH]; intros w HP; [exact HP|].
  simpl in Hj. cbn [Processor.for_messages].
  erewrite run_bind by reflexivity.
  pose proof (left_pending_dispatch l0 i d0 j w Hj HP) as HP1. simpl in HP1.
  set (w1 := {| patient_states := _; dispatched := dispatched w ++ [j] |}) in *.
  destruct (process_event_frame (clock j) (db_ok j) data model w1) as [Hr Hd].
  destruct (process_event (clock j) (db_ok j) data model w1) as [[[]|e] w2] eqn:Erun;
    simpl in Hr, Hd.
  - erewrite run_bind by exact Erun.
    pose proof (left_pending_frame l0 i d0 w1 w2 Hr Hd HP1) as HP2.
    pose proof (left_pending_xack l0 i d0 j w2 Hi Hj HP2) as HP3.
    destruct (xack GROUP_NAME j w2) as [[[]|e] w3] eqn:Eack.
    + erewrite run_bind by exact Eack. apply IH. exact HP3.
    + erewrite run_bind_raise by exact Eack. exact HP3.
  - erewrite run_bind_raise by exact Erun.
    exact (left_pending_frame l0 i d0 w1 w2 Hr Hd HP1).
Qed.

Lemma xreadgroup_left_pending l0 i d0 n w :
  left_pending l0 i d0 w ->
  exists msgs w', xreadgroup GROUP_NAME consumer n w = (Ret msgs, w')
    /\ Forall (fun m => (l0 <= m.1)%nat) msgs
    /\ left_pending l0 i d0 w'.
Proof.
  intros [(g & Hg & Hl & Hin) Hd]. unfold xreadgroup. rewrite Hg.
  do 2 eexists. split; [reflexivity|]. split.
  - apply Forall_forall. intros [j data] Hm. simpl.
    apply elem_of_zip_l in Hm. simpl in Hm.
    apply list_elem_of_In, in_seq in Hm. lia.
  - split; [|exact Hd]. eexists. simpl. rewrite lookup_insert_eq.
    split; [reflexivity|]. simpl. split; [lia|].
    rewrite map_app. apply elem_of_app. by left.
Qed.

Lemma loop_body_left_pending l0 i d0 w :
  (i < l0)%nat -> left_pending l0 i d0 w -> left_pending l0 i d0 (loop_body w).2.
Proof.
  intros Hi HP. unfold Processor.loop_body, try_except.
  destruct (xreadgroup_left_pending l0 i d0 10 w HP) as (msgs & w1 & Hx & Hall & HP1).
  erewrite run_bind by exact Hx.
  pose proof (for_messages_left_pending l0 i d0 msgs w1 Hi Hall HP1) as HP2.
  destruct (for_messages msgs w1) as [[[]|e] w2]; simpl in *; exact HP2.
Qed.

Lemma main_loop_left_pending l0 i d0 arrivals w :
  (i < l0)%nat -> left_pending l0 i d0 w -> left_pending l0 i d0 (main_loop arrivals w).2.
Proof.
  intros Hi. revert w. induction arrivals as [|ds rest IH]; intros w HP; [exact HP|].
  cbn [Processor.main_loop].
  erewrite run_bind by reflexivity.
  assert (HP1 : left_pending l0 i d0
                  (set_redis (fun s => {| entries := entries s ++ ds;
                                          groups := groups s |}) w)).
  { destruct HP as [Hg Hd]. split; [exact Hg | exact Hd]. }
  set (w1 := set_redis _ w) in *.
  pose proof (loop_body_left_pending l0 i d0 w1 Hi HP1) as HP2.
  destruct (loop_body w1) as [[[]|e] w2] eqn:El; simpl in HP2.
  - erewrite run_bind by exact El. by apply IH.
  - erewrite run_bind_raise by exact El. exact HP2.
Qed.

(** The inner loop hands a non-empty prefix of a non-empty batch to
    [process_event], in order, and leaves the group's last-delivered id
    alone. *)
Lemma for_messages_prefix msgs w :
  exists k,
    dispatched (for_messages msgs w).2 = dispatched w ++ take k (map fst msgs)
    /\ (msgs <> [] -> (0 < k)%nat)
    /\ (forall g, groups (redis w) !! GROUP_NAME = Some g ->
          exists g', groups (redis (for_messages msgs w).2) !! GROUP_NAME = Some g'
                     /\ last_delivered g' = last_delivered g).
Proof.
  revert w. induction msgs as [|[j data] msgs IH]; intros w.
  - exists 0%nat. simpl. rewrite app_nil_r. split; [done|]. split; [done | eauto].
  - cbn [Processor.for_messages].
    erewrite run_bind by reflexivity.
    unfold note_dispatch, modify. simpl.
    set (w1 := {| patient_states := _; dispatched := dispatched w ++ [j] |}).
    destruct (process_event_frame (clock j) (db_ok j) data model w1) as [Hr Hd].
    destruct (process_event (clock j) (db_ok j) data model w1) as [[[]|e] w2] eqn:Erun;
      simpl in Hr, Hd.
    + erewrite run_bind by exact Erun.
      destruct (xack_run GROUP_NAME j w2) as (w3 & Hack & _ & Hd3 & _ & _ & Hg3).
      erewrite run_bind by exact Hack.
      destruct (IH w3) as (k & Hk & _ & Hg).
      exists (S k). rewrite Hk, Hd3, Hd. simpl. rewrite <- app_assoc.
      split; [done|]. split; [lia|].
      intros g Hgw. rewrite <- Hr in Hgw.
      destruct (Hg3 g Hgw) as (g3 & Hg3' & Hl3).
      destruct (Hg g3 Hg3') as (g' & Hg' & Hl'). exists g'. split; [done | congruence].
    + erewrite run_bind_raise by exact Erun.
      exists 1%nat. simpl. rewrite Hd. split; [done|]. split; [lia|].
      intros g Hgw. rewrite Hr. eauto.
Qed.

Lemma StronglySorted_seq a n : StronglySorted lt (seq a n).
Proof.
  revert a. induction n as [|n IH]; intros a; simpl; constructor; [apply IH|].
  apply Forall_seq. intros; lia.
Qed.

(** One turn of the loop keeps the order of the history and, when an
    entry was never delivered, hands the first such entry to
    [process_event]. *)
Lemma loop_body_in_order l0 d0 w :
  dispatched_in_order l0 d0 w ->
  dispatched_in_order l0 d0 (loop_body w).2
  /\ (forall g, groups (redis w) !! GROUP_NAME = Some g ->
        (last_delivered g < length (entries (redis w)))%nat ->
        exists rest, dispatched (loop_body w).2
                     = dispatched w ++ last_delivered g :: rest).
Proof.
  intros (g & new & Hg & Hd & Hs & Hall & Hl).
  set (batch := take 10 (drop (last_delivered g) (entries (redis w)))).
  set (g1 := {| last_delivered := (last_delivered g + length batch)%nat;
                pel := pel g ++ map (fun i => (i, consumer))
                                  (seq (last_delivered g) (length batch)) |}).
  set (w1 := set_redis (set_group GROUP_NAME g1) w).
  assert (Hx : xreadgroup GROUP_NAME consumer 10 w
               = (Ret (zip (seq (last_delivered g) (length batch)) batch), w1)).
  { unfold xreadgroup. rewrite Hg. reflexivity. }
  unfold Processor.loop_body, try_except.
  rewrite (run_bind _ _ w _ _ Hx).
  destruct (for_messages_prefix (zip (seq (last_delivered g) (length batch)) batch) w1)
    as (k & Hk & Hpos & Hgk).
  destruct (Hgk g1) as (g' & Hg' & Hl'); [simpl; by rewrite lookup_insert_eq|].
  assert (Hids : map fst (zip (seq (last_delivered g) (length batch)) batch)
                 = seq (last_delivered g) (length batch)).
  { apply fst_zip. by rewrite length_seq. }
  rewrite Hids, take_seq in Hk. simpl in Hk.
  assert (Hinv : dispatched_in_order l0 d0
                   (for_messages (zip (seq (last_delivered g) (length batch)) batch) w1).2
                 /\ (forall g0, groups (redis w) !! GROUP_NAME = Some g0 ->
                       (last_delivered g0 < length (entries (redis w)))%nat ->
                       exists rest,
                         dispatched (for_messages
                                       (zip (seq (last_delivered g) (length batch)) batch)
                                       w1).2
                         = dispatched w ++ last_delivered g0 :: rest)).
  { split.
    - exists g', (new ++ seq (last_delivered g) (k `min` length batch)).
      split; [exact Hg'|]. split; [rewrite Hk, Hd, app_assoc; done|].
      split.
      + apply StronglySorted_app_2; [|exact Hs | apply StronglySorted_seq].
        intros x1 x2 H1 H2. rewrite Forall_forall in Hall. apply Hall in H1.
        apply elem_of_seq in H2. lia.
      + rewrite Hl'. simpl. split; [|lia].
        apply Forall_app. split.
        * eapply Forall_impl; [exact Hall|]. simpl. intros; lia.
        * apply Forall_seq. intros; lia.
    - intros g0 Hg0 Hlt. rewrite Hg in Hg0. injection Hg0 as <-. rewrite Hk.
      assert (Hb : (0 < length batch)%nat).
      { unfold batch. rewrite length_take, length_drop. lia. }
      assert (Hk0 : (0 < k)%nat).
      { apply Hpos. intros Hnil. apply (f_equal length) in Hnil.
        rewrite length_zip_with, length_seq in Hnil. simpl in Hnil. lia. }
      destruct (k `min` length batch)%nat as [|n] eqn:En; [lia|].
      simpl. eauto. }
  destruct (for_messages _ w1) as [[[]|e] w2]; simpl in Hinv |- *; exact Hinv.
Qed.

Lemma main_loop_in_order l0 d0 arrivals w :
  dispatched_in_order l0 d0 w -> dispatched_in_order l0 d0 (main_loop arrivals w).2.
Proof.
  revert w. induction arrivals as [|ds rest IH]; intros w HP; [exact HP|].
  cbn [Processor.main_loop].
  erewrite run_bind by reflexivity.
  set (w1 := set_redis _ w).
  assert (HP1 : dispatched_in_order l0 d0 w1) by exact HP.
  destruct (loop_body_in_order l0 d0 w1 HP1) as [HP2 _].
  pose proof (loop_body_returns w1) as Hret.
  destruct (loop_body w1) as [res w2] eqn:El. simpl in Hret, HP2. subst res.
  erewrite run_bind by exact El. by apply IH.
Qed.

(** The first poll after entries exist that were never delivered hands
    the first of them to [process_event]. *)
Lemma main_loop_first l0 d0 ds rest w g :
  dispatched_in_order l0 d0 w ->
  groups (redis w) !! GROUP_NAME = Some g ->
  (last_delivered g < length (entries (redis w) ++ ds))%nat ->
  exists more, dispatched (main_loop (ds :: rest) w).2
               = dispatched w ++ last_delivered g :: more.
Proof.
  intros HP Hg Hlt. cbn [Processor.main_loop].
  erewrite run_bind by reflexivity.
  set (w1 := set_redis _ w).
  assert (HP1 : dispatched_in_order l0 d0 w1) by exact HP.
  destruct (loop_body_in_order l0 d0 w1 HP1) as [HP2 Hfirst].
  destruct (Hfirst g Hg Hlt) as [more Hmore].
  pose proof (loop_body_returns w1) as Hret.
  destruct (loop_body w1) as [res w2] eqn:El. simpl in Hret, HP2, Hmore. subst res.
  erewrite run_bind by exact El.
  assert (HP3 : dispatched_in_order l0 (dispatched w2) w2).
  { destruct HP2 as (g2 & new2 & Hg2 & _ & _ & _ & Hl2).
    exists g2, []. rewrite app_nil_r.
    repeat split; [done | constructor | constructor | done]. }
  destruct (main_loop_in_order l0 (dispatched w2) rest w2 HP3)
    as (_ & new3 & _ & Hd3 & _).
  exists (more ++ new3). rewrite Hd3, Hmore, <- app_assoc. done.
Qed.

(** The startup step: the group is there afterwards, created at id 0 when
    it was absent, untouched when it existed. *)
Lemma startup_group w :
  let l0 := from_option last_delivered 0%nat (groups (redis w) !! GROUP_NAME) in
  exists w0 g0,
    try_except (xgroup_create GROUP_NAME)
      (fun e => match e with
                | ResponseError msg =>
                    match String.index 0 "BUSYGROUP" msg with
                    | Some _ => mret tt
                    | None => raise e
                    end
                | _ => raise e
                end) w = (Ret tt, w0)
    /\ groups (redis w0) !! GROUP_NAME = Some g0
    /\ last_delivered g0 = l0
    /\ entries (redis w0) = entries (redis w)
    /\ dispatched w0 = dispatched w
    /\ pending_ids GROUP_NAME w0 = pending_ids GROUP_NAME w.
Proof.
  unfold try_except, xgroup_create, pending_ids.
  destruct (groups (redis w) !! GROUP_NAME) as [g|] eqn:Hg.
  - exists w, g. rewrite Hg. done.
  - eexists _, _. split; [reflexivity|]. simpl. rewrite lookup_insert_eq. done.
Qed.

(** C7, amended.  On startup the worker creates the consumer group if it
    is absent (an existing group is not an error) and then reads only
    entries never delivered to the group: [main] ends its polls without an
    exception, the group exists afterwards, the entries handed to
    [process_event] have strictly increasing ids from the group's
    last-delivered id on (from the first entry when the group was just
    created), and the first poll that finds such an entry processes it.
    An entry that is pending when the worker starts is never handed to
    [process_event] nor acknowledged; it is still pending afterwards. *)
Theorem C7_pending_entries_left_pending (arrivals : list (list event_data)) (w : World) :
  let l0 := from_option last_delivered 0%nat (groups (redis w) !! GROUP_NAME) in
  let run := main (Some model) consumer clock db_ok arrivals w in
  run.1 = Ret tt
  /\ exists g' new,
       groups (redis run.2) !! GROUP_NAME = Some g'
       /\ dispatched run.2 = dispatched w ++ new
       /\ StronglySorted lt new
       /\ Forall (fun j => (l0 <= j < last_delivered g')%nat) new
       /\ (forall ds rest, arrivals = ds :: rest ->
             (l0 < length (entries (redis w) ++ ds))%nat ->
             exists more, new = l0 :: more)
       /\ (forall i, i ∈ pending_ids GROUP_NAME w -> (i < l0)%nat ->
             (i ∉ new) /\ (i ∈ pending_ids GROUP_NAME run.2)).
Proof.
  cbv zeta. unfold Processor.main.
  destruct (startup_group w) as (w0 & g0 & Hc & Hg0 & Hl0 & He0 & Hd0 & Hp0).
  erewrite run_bind by exact Hc.
  split; [apply main_loop_returns|].
  assert (HP : dispatched_in_order (last_delivered g0) (dispatched w) w0).
  { exists g0, []. rewrite app_nil_r, Hd0.
    repeat split; [done | constructor | constructor | lia]. }
  destruct (main_loop_in_order _ _ arrivals w0 HP) as (g' & new & Hg' & Hd & Hs & Hall & _).
  exists g', new. rewrite <- Hl0.
  split; [exact Hg'|]. split; [exact Hd|]. split; [exact Hs|]. split; [exact Hall|].
  split.
  - intros ds rest -> Hlt. rewrite <- He0 in Hlt.
    destruct (main_loop_first _ _ ds rest w0 g0 HP Hg0 Hlt) as [more Hmore].
    rewrite Hd, Hd0 in Hmore. apply app_inv_head in Hmore. eauto.
  - intros i Hin Hi. split.
    + intros Hn. rewrite Forall_forall in Hall. apply Hall in Hn. lia.
    + assert (HL : left_pending (last_delivered g0) i (dispatched w) w0).
      { split.
        - exists g0. split; [done|]. split; [lia|].
          rewrite <- Hp0 in Hin. unfold pending_ids in Hin. by rewrite Hg0 in Hin.
        - exists []. by rewrite app_nil_r. }
      destruct (main_loop_left_pending _ _ _ arrivals w0 Hi HL)
        as [(g2 & Hg2 & _ & Hin2) _].
      unfold pending_ids. by rewrite Hg2.
Qed.

End ProcessorProps.

(** *** The worker on concrete entries *)

Section ProcessorExamples.
Import Windows Processor Examples.

(** C6 on a warm window: after five unflagged readings the flagged one is
    the sixth entry of the 10-minute window; its heart rate and SpO2 equal
    the window averages and its score is 0, so it is persisted as a
    drift. *)
Lemma C6_anomaly_kind_priority_witness :
  decode ex_fromisoformat ex_int ex_float 0 flagged_entry
  = Some ("pt-1", flagged_reading)
  /\ map a_anomaly_type (anomalies (ex_process false 0 true flagged_entry warm_world).2)
     = ["drift"].
Proof.
  split; [reflexivity|].
  destruct (C6_anomaly_kind_priority ex_fromisoformat ex_int ex_float exact_posix
              exact_sub ex_mean ex_round2 false 0 true flagged_entry ex_model
              warm_world "pt-1" flagged_reading eq_refl)
    as (_ & _ & _ & H & _).
  unfold ex_process. rewrite H. vm_compute. reflexivity.
Defined.





(** C7, as stated, fails: the worker restarts under the same consumer name
    with entry 0 pending; a new entry arrives and three polls follow.  The
    new entry (id 1) is processed and acknowledged, entry 0 is never handed
    to [process_event] and is still pending. *)
Lemma C7_pending_entry_not_reprocessed :
  let w' := (ex_main "worker-1" [[entry "101" "16"]; []; []] world_pending).2 in
  dispatched w' = [1%nat] /\ pending_ids GROUP_NAME w' = [0%nat].
Proof. split; vm_compute; reflexivity. Qed.

Lemma C7_pending_entries_left_pending_witness :
  0%nat ∈ pending_ids GROUP_NAME
    (ex_main "worker-1" [[entry "101" "16"]; []; []] world_pending).2.
Proof.
  destruct (C7_pending_entries_left_pending ex_fromisoformat ex_int ex_float
              exact_posix exact_sub ex_mean ex_round2 false ex_model "worker-1"
              (fun _ => 0) (fun _ => true)
              [[entry "101" "16"]; []; []] world_pending)
    as (_ & g' & new & _ & _ & _ & _ & _ & Hpend).
  destruct (Hpend 0%nat) as [_ Hin].
  - change (0%nat ∈ [0%nat]). apply list_elem_of_here.
  - change (0 < 1)%nat. lia.
  - exact Hin.
Defined.

End ProcessorExamples.

(** ** The ingest front-end *)

Section ApiProps.
Import Validators Api.

Lemma live_insert t key e c :
  live t key (<[key := e]> c)
  = match expires_at e with
    | Some x => if t <? x then Some e else None
    | None => Some e
    end.
Proof. unfold live. by rewrite lookup_insert_eq. Qed.

Lemma live_insert_ne t key key' e c :
  key' <> key -> live t key (<[key' := e]> c) = live t key c.
Proof. intros H. unfold live. by rewrite lookup_insert_ne. Qed.

Lemma live_expiry t key c e :
  live t key c = Some e ->
  match expires_at e with Some x => t <? x | None => true end = true.
Proof.
  unfold live. destruct (c !! key) as [e0|]; [|done].
  destruct (expires_at e0) as [x|] eqn:Ex.
  - destruct (t <? x) eqn:Et; [|done]. intros [= <-]. by rewrite Ex.
  - intros [= <-]. by rewrite Ex.
Qed.

(** What one call of the limiter returns and the world it leaves. *)
Lemma check_rate_limit_run t pid w :
  let key := rate_key pid in
  let n := next_count t pid w in
  let exp := if n =? 1 then Some (t + seconds 10)
             else live t key (cache w) ≫= expires_at in
  check_rate_limit t pid w
  = (if n >? 20 then Raise rate_limited else Ret tt,
     {| cache := <[key := {| value := n; expires_at := exp |}]> (cache w);
        db := db w; stream := stream w;
        trace := trace w ++ E_incr key :: (if n =? 1 then [E_expire key] else []) |}).
Proof.
  unfold check_rate_limit, next_count, incr, expire, rate_limited.
  erewrite run_bind by reflexivity. simpl.
  set (key := rate_key pid).
  destruct (live t key (cache w)) as [e|] eqn:El; simpl.
  - pose proof (live_expiry _ _ _ _ El) as Hx.
    destruct (value e + 1 =? 1) eqn:E1.
    + erewrite run_bind by reflexivity. unfold emit, set_cache. simpl.
      rewrite live_insert. simpl. rewrite <- app_assoc. simpl.
      destruct (expires_at e) as [x|]; [rewrite Hx|]; simpl;
        rewrite insert_insert_eq;
        destruct (value e + 1 >? 20); reflexivity.
    + erewrite run_bind by reflexivity. unfold emit, set_cache. simpl.
      destruct (value e + 1 >? 20); reflexivity.
  - erewrite run_bind by reflexivity. unfold emit, set_cache. simpl.
    rewrite live_insert. simpl.
    rewrite insert_insert_eq, <- app_assoc. reflexivity.
Qed.

Lemma attempts_in_window pid times n x w :
  cache w !! rate_key pid = Some {| value := n; expires_at := Some x |} ->
  1 <= n ->
  Forall (fun t => t < x) times ->
  attempts pid times w = outcomes n (length times).
Proof.
  intros Hc Hn Hall. revert n w Hc Hn.
  induction Hall as [|t times Ht Hall IH]; intros n w Hc Hn; [done|].
  simpl. rewrite check_rate_limit_run.
  assert (Hl : live t (rate_key pid) (cache w)
               = Some {| value := n; expires_at := Some x |}).
  { unfold live. rewrite Hc. simpl. by replace (t <? x) with true by lia. }
  unfold next_count. rewrite Hl. simpl.
  replace (n + 1 =? 1) with false by lia.
  f_equal. apply IH; [|lia]. simpl. by rewrite lookup_insert_eq.
Qed.



End ApiProps.

Section IngestProps.
Import Validators Api.

Variable sha256_hexdigest : string -> string.
Variable isoformat : Z -> string.

Abbreviation idem_key_of := (Api.idem_key_of sha256_hexdigest isoformat).
Abbreviation ingest_vitals := (Api.ingest_vitals sha256_hexdigest isoformat).
Abbreviation post_ingest := (Api.post_ingest sha256_hexdigest isoformat).

Lemma keys_distinct pid r : rate_key pid <> idem_key_of r.
Proof. unfold rate_key, Api.idem_key_of. simpl. discriminate. Qed.

(** The handler, case by case; [w1] is the world the limiter leaves. *)
Lemma ingest_vitals_run env r w :
  let w1 := (check_rate_limit (now env) (patient_id r) w).2 in
  let idem := idem_key_of r in
  let w2 := emit (E_exists idem) w1 in
  let d := db w1 in
  let id := next_id d in
  let w3 := emit (E_commit id)
              (set_db {| patients := {[patient_id r]} ∪ patients d;
                         vitals_events := vitals_events d ++ [{| event_id := id; row := r |}];
                         next_id := id + 1 |} w2) in
  let p := {| p_reading := r; p_timestamp := isoformat (timestamp r); p_db_id := id |} in
  let w4 := emit (E_xadd (length (stream w3))) (set_stream (stream w3 ++ [p]) w3) in
  ingest_vitals env r w
  = if next_count (now env) (patient_id r) w >? 20 then (Raise rate_limited, w1)
    else if bool_decide (is_Some (live (now env) idem (cache w1)))
      then (Ret (Ignored "duplicate_event_cache"), w2)
    else if negb (db_up env)
      then (Raise (HTTPException 500 "Database persistence failed"), emit E_rollback w2)
    else if existsb (same_event r) (vitals_events d)
      then (Raise (HTTPException 500 "Database persistence failed"),
            emit E_rollback
              (set_db {| patients := patients d; vitals_events := vitals_events d;
                         next_id := id + 1 |} w2))
    else if negb (xadd_ok env)
      then (Raise (HTTPException 503 "Stream service unavailable"), emit E_xadd_failed w3)
    else if negb (setex_ok env)
      then (Raise (HTTPException 503 "Stream service unavailable"), emit E_setex_failed w4)
    else (Ret (Queued (length (stream w3)) id),
          emit (E_setex idem)
            (set_cache <[idem := {| value := 1;
                                    expires_at := Some (now env + seconds 600) |}]> w4)).
Proof.
  unfold Api.ingest_vitals.
  pose proof (check_rate_limit_run (now env) (patient_id r) w) as Hrl.
  simpl in Hrl.
  destruct (check_rate_limit (now env) (patient_id r) w) as [res w1] eqn:E.
  simpl. injection Hrl as Hres _.
  destruct (next_count (now env) (patient_id r) w >? 20); subst res;
    [erewrite run_bind_raise by exact E; reflexivity|].
  erewrite run_bind by exact E.
  erewrite run_bind by reflexivity.
  destruct (bool_decide (is_Some (live (now env) (idem_key_of r) (cache w1)))) eqn:Eh.
  { reflexivity. }
  unfold try_except, persist, xadd, setex, emit, set_db, set_stream, set_cache,
    mbind, M_bind, mret, M_ret, raise.
  simpl.
  destruct (db_up env); simpl; [|reflexivity].
  destruct (existsb (same_event r) (vitals_events (db w1))); simpl; [reflexivity|].
  destruct (xadd_ok env); simpl; [|reflexivity].
  destruct (setex_ok env); simpl; reflexivity.
Qed.

(** The limiter changes the counter of the patient and nothing else. *)
Lemma rate_world t r w :
  let w1 := (check_rate_limit t (patient_id r) w).2 in
  db w1 = db w /\ stream w1 = stream w
  /\ live t (idem_key_of r) (cache w1) = live t (idem_key_of r) (cache w)
  /\ trace w1 = trace w ++ E_incr (rate_key (patient_id r))
                 :: (if next_count t (patient_id r) w =? 1
                     then [E_expire (rate_key (patient_id r))] else []).
Proof.
  simpl. rewrite check_rate_limit_run. simpl.
  repeat split. apply live_insert_ne, keys_distinct.
Qed.

Lemma new_effects_app w w' l : trace w' = trace w ++ l -> new_effects w w' = l.
Proof. intros H. unfold new_effects. rewrite H. apply drop_app_length. Qed.

(** C3, amended.  A valid, rate-admitted request whose idempotency key is
    present is answered with the route's status 202 and the body
    [{status: "ignored", detail: "duplicate_event_cache"}]; the durable
    store and the stream are left as they were, and the only effects are
    the cache commands of the limiter and the lookup. *)
Theorem C3_cache_hit_is_ignored env c w :
  validate (now env) c = inl c ->
  next_count (now env) (patient_id c) w <= 20 ->
  is_Some (live (now env) (idem_key_of c) (cache w)) ->
  let resp := (post_ingest env c w).1 in
  let w' := (post_ingest env c w).2 in
  resp = {| status_code := 202; body := Ignored "duplicate_event_cache" |}
  /\ db w' = db w
  /\ stream w' = stream w
  /\ Forall (fun e => exists k, e = E_incr k \/ e = E_expire k \/ e = E_exists k)
       (new_effects w w').
Proof.
  intros Hv Hn Hhit. unfold Api.post_ingest. rewrite Hv, ingest_vitals_run.
  destruct (rate_world (now env) c w) as (Hdb & Hst & Hlive & Htr).
  replace (_ >? 20) with false by lia.
  rewrite Hlive, bool_decide_eq_true_2 by exact Hhit.
  unfold emit. simpl.
  split; [done|]. split; [exact Hdb|]. split; [exact Hst|].
  erewrite new_effects_app by (simpl; rewrite Htr, <- app_assoc; reflexivity).
  simpl. constructor; [eauto|].
  destruct (_ =? 1); simpl; repeat constructor; eauto.
Qed.

(** C1.  For a valid, rate-admitted request that misses the idempotency
    cache, the handler's effects are in commit order: a stream append only
    after a commit, the cache key only after a stream append.  When the
    durable step commits, the event row is stored whatever follows; if the
    stream publish then fails the response is 503, the row stays, the
    stream is unchanged and the idempotency key is still absent; if
    everything succeeds the response is 202, the entry is appended and the
    key is set.  When the durable step fails nothing is published or set. *)
Theorem C1_commit_then_publish_then_cache env c w :
  validate (now env) c = inl c ->
  next_count (now env) (patient_id c) w <= 20 ->
  live (now env) (idem_key_of c) (cache w) = None ->
  let resp := (post_ingest env c w).1 in
  let w' := (post_ingest env c w).2 in
  let idem := idem_key_of c in
  let committed := db_up env && negb (existsb (same_event c) (vitals_events (db w))) in
  let p := {| p_reading := c; p_timestamp := isoformat (timestamp c);
              p_db_id := next_id (db w) |} in
  ordered false false (new_effects w w') = true
  /\ (committed = true -> stored c w')
  /\ (committed = true -> xadd_ok env = false ->
      status_code resp = 503 /\ stored c w' /\ stream w' = stream w
      /\ live (now env) idem (cache w') = None)
  /\ (committed = true -> xadd_ok env = true -> setex_ok env = true ->
      resp = {| status_code := 202;
                body := Queued (length (stream w)) (next_id (db w)) |}
      /\ stream w' = stream w ++ [p]
      /\ is_Some (live (now env) idem (cache w')))
  /\ (committed = false ->
      status_code resp = 500 /\ stream w' = stream w
      /\ vitals_events (db w') = vitals_events (db w)
      /\ live (now env) idem (cache w') = None)
  /\ (is_Some (live (now env) idem (cache w')) -> stream w' = stream w ++ [p]).
Proof.
  intros Hv Hn Hmiss. unfold Api.post_ingest. rewrite Hv, ingest_vitals_run.
  destruct (rate_world (now env) c w) as (Hdb & Hst & Hlive & Htr).
  set (w1 := (check_rate_limit (now env) (patient_id c) w).2) in *.
  replace (_ >? 20) with false by lia.
  rewrite Hlive, Hmiss, bool_decide_eq_false_2 by (intros [? ?]; done).
  rewrite Hdb. unfold emit, set_db, set_stream, set_cache.
  assert (Hstored : forall (l : list EventRow) i,
            exists e, e ∈ l ++ [{| event_id := i; row := c |}] /\ row e = c).
  { intros l i. eexists.
    split; [apply elem_of_app; right; apply list_elem_of_here | done]. }
  destruct (db_up env), (existsb (same_event c) (vitals_events (db w))),
    (xadd_ok env), (setex_ok env); simpl;
    (split;
     [ erewrite new_effects_app
         by (simpl; rewrite Htr, <- ?app_assoc; simpl; reflexivity);
       destruct (_ =? 1); reflexivity |]);
    unfold stored; simpl; rewrite ?Hdb, ?Hst, ?Hlive, ?Hmiss, ?live_insert; simpl;
    replace (now env <? now env + seconds 600) with true by (unfold seconds; lia);
    repeat split; try done; try (intros; done); eauto;
    try (intros [? ?]; done);
    try (intros; apply Hstored).
Qed.

End IngestProps.

Section IngestExamples.
Import Validators Api ApiExamples.

Lemma C1_commit_then_publish_then_cache_witness :
  status_code (post env_stream_down c0 empty_world).1 = 503
  /\ stored c0 (post env_stream_down c0 empty_world).2
  /\ stream (post env_stream_down c0 empty_world).2 = []
  /\ live 0 (idem_key_of ex_sha256 ex_isoformat c0)
       (cache (post env_stream_down c0 empty_world).2) = None.
Proof.
  destruct (C1_commit_then_publish_then_cache ex_sha256 ex_isoformat
              env_stream_down c0 empty_world) as (_ & _ & H & _).
  - reflexivity.
  - vm_compute. discriminate.
  - reflexivity.
  - exact (H eq_refl eq_refl).
Defined.

(** C2: the retry of a request that was answered 503 after its row was
    committed.  The cache key is absent, the insert hits the unique index,
    and the handler answers 500 "Database persistence failed"; the reading
    is stored once and never reaches the stream. *)
Lemma C2_duplicate_row_answered_500 :
  let w1 := (post env_stream_down c0 empty_world).2 in
  status_code (post env_stream_down c0 empty_world).1 = 503
  /\ existsb (same_event c0) (vitals_events (db w1)) = true
  /\ (post env_up c0 w1).1
     = {| status_code := 500; body := Detail "Database persistence failed" |}
  /\ length (vitals_events (db (post env_up c0 w1).2)) = 1%nat
  /\ stream (post env_up c0 w1).2 = [].
Proof. repeat split; reflexivity. Qed.

(** C3, as stated, fails: the replay of an accepted reading hits the cache
    and is answered with the route's status 202, not 200; and with the
    patient's counter at the ceiling the same replay is answered 429. *)
Lemma C3_cache_hit_answered_202 :
  let w := (post env_up c0 empty_world).2 in
  is_Some (live 0 (idem_key_of ex_sha256 ex_isoformat c0) (cache w))
  /\ (post env_up c0 w).1
     = {| status_code := 202; body := Ignored "duplicate_event_cache" |}
  /\ status_code (post env_up c0 w).1 <> 200
  /\ is_Some (live 0 (idem_key_of ex_sha256 ex_isoformat c0) (cache world_at_ceiling))
  /\ status_code (post env_up c0 world_at_ceiling).1 = 429.
Proof.
  repeat split; try reflexivity.
  - vm_compute. eauto.
  - vm_compute. discriminate.
  - vm_compute. eauto.
Qed.

Lemma C3_cache_hit_is_ignored_witness :
  (post env_up c0 (post env_up c0 empty_world).2).1
  = {| status_code := 202; body := Ignored "duplicate_event_cache" |}
  /\ stream (post env_up c0 (post env_up c0 empty_world).2).2
     = stream (post env_up c0 empty_world).2.
Proof.
  destruct (C3_cache_hit_is_ignored ex_sha256 ex_isoformat env_up c0
              (post env_up c0 empty_world).2) as (H1 & _ & H2 & _).
  - reflexivity.
  - vm_compute. discriminate.
  - vm_compute. eauto.
  - split; [exact H1 | exact H2].
Defined.

End IngestExamples.

